(** * ScholarOne API tool: JSON flattening, row assembly and batch planning

    A shallow embedding of
      - [src/core/flatten.py]                        (module [Core]),
      - [src/apps/gui/email_scholarone_gui_app.py]   (module [Email]),
      - [src/apps/gui/scholarone_gui_app.py]         (module [Gui]),
    together with the properties the specification states about them.

    Parsed JSON payloads are values of the inductive type [json].  A Python
    dict that is only read (the payload) is an association list in insertion
    order; a dict that is built as a lookup table (the flat row) is a
    [gmap string json]. *)

From Stdlib Require Import ZArith Floats.SpecFloat.
From stdpp Require Import base option list strings pretty gmap fin_maps.

#[local] Set Warnings "-register-all".

(** ** JSON values, as [json.loads] / [Response.json()] deliver them *)

Inductive json : Type :=
  | JNull
  | JBool (b : bool)
  | JInt (z : Z)
  | JFloat (f : spec_float)
  | JStr (s : string)
  | JList (l : list json)
  | JDict (d : list (string * json)).

(** A scalar is anything that is neither a mapping nor a (non-string)
    sequence. *)
Definition is_scalar (o : json) : bool :=
  match o with JDict _ | JList _ => false | _ => true end.

(** Python truthiness, used by [or] and by [if parent_key]. *)
Definition truthy (o : json) : bool :=
  match o with
  | JNull => false
  | JBool b => b
  | JInt z => negb (Z.eqb z 0)
  | JFloat f => match f with S754_zero _ => false | _ => true end
  | JStr s => negb (String.eqb s "")
  | JList l => match l with [] => false | _ => true end
  | JDict d => match d with [] => false | _ => true end
  end.

Definition str_truthy (s : string) : bool :=
  match s with EmptyString => false | _ => true end.

(** [str(i)] for a non-negative index. *)
Definition str_of_nat (i : nat) : string := pretty i.

(** A dict obtained from a JSON document has pairwise distinct keys, at
    every level. *)
Fixpoint wf_json (o : json) : bool :=
  match o with
  | JList l => forallb wf_json l
  | JDict d =>
      bool_decide (NoDup d.*1) && forallb (λ kv : string * json, wf_json kv.2) d
  | _ => true
  end.

(** Number of scalar leaves of a value. *)
Fixpoint count_leaves (o : json) : nat :=
  match o with
  | JList l => sum_list (count_leaves <$> l)
  | JDict d => sum_list ((λ kv : string * json, count_leaves kv.2) <$> d)
  | _ => 1
  end.

(** Induction over [json] that reaches below lists and dicts. *)
Section json_induction.
Variable P : json → Prop.
Hypothesis Hnull : P JNull.
Hypothesis Hbool : ∀ b, P (JBool b).
Hypothesis Hint : ∀ z, P (JInt z).
Hypothesis Hfloat : ∀ f, P (JFloat f).
Hypothesis Hstr : ∀ s, P (JStr s).
Hypothesis Hlist : ∀ l, Forall P l → P (JList l).
Hypothesis Hdict : ∀ d, Forall (λ kv, P kv.2) d → P (JDict d).

Fixpoint json_nested_ind (o : json) : P o :=
  match o with
  | JNull => Hnull
  | JBool b => Hbool b
  | JInt z => Hint z
  | JFloat f => Hfloat f
  | JStr s => Hstr s
  | JList l =>
      Hlist l ((fix go (l : list json) : Forall P l :=
                  match l with
                  | [] => Forall_nil_2 P
                  | x :: l' => Forall_cons_2 P x l' (json_nested_ind x) (go l')
                  end) l)
  | JDict d =>
      Hdict d ((fix go (d : list (string * json)) : Forall (λ kv, P kv.2) d :=
                  match d with
                  | [] => Forall_nil_2 _
                  | kv :: d' =>
                      Forall_cons_2 (λ kv, P kv.2) kv d'
                        (json_nested_ind kv.2) (go d')
                  end) d)
  end.
End json_induction.

(** ** src/core/flatten.py *)

Module Core.

(** [f'{parent_key}{sep}{k}' if parent_key else str(k)] *)
Definition dict_key (parent_key sep k : string) : string :=
  if str_truthy parent_key then parent_key +:+ sep +:+ k else k.

(** [f'{parent_key}_{i}' if parent_key else str(i)] *)
Definition list_key (parent_key : string) (i : nat) : string :=
  if str_truthy parent_key then parent_key +:+ "_" +:+ str_of_nat i
  else str_of_nat i.

(** [items.update(other)]: the entries of [other] win. *)
Definition update (items other : gmap string json) : gmap string json :=
  other ∪ items.

Fixpoint flatten (obj : json) (parent_key sep : string) : gmap string json :=
  match obj with
  | JDict d =>
      (fix loop (d : list (string * json)) (items : gmap string json) :=
         match d with
         | [] => items
         | (k, v) :: d' =>
             loop d' (update items (flatten v (dict_key parent_key sep k) sep))
         end) d ∅
  | JList l =>
      (fix loop (l : list json) (i : nat) (items : gmap string json) :=
         match l with
         | [] => items
         | v :: l' =>
             loop l' (S i) (update items (flatten v (list_key parent_key i) sep))
         end) l 1 ∅
  | _ => <[parent_key := obj]> ∅
  end.

(** [flatten(obj)] with the defaults [parent_key=''] and [sep='.']. *)
Definition flatten_default (obj : json) : gmap string json := flatten obj "" ".".

End Core.

(** ** Python exceptions the modelled code can raise *)

Inductive exn : Type :=
  | AttributeError   (* [.get] on a value that is not a dict *)
  | ValueError.      (* [range] with step 0 *)

Inductive result (A : Type) : Type :=
  | Ok (a : A)
  | Raise (e : exn).
Arguments Ok {A} a.
Arguments Raise {A} e.

#[global] Instance result_ret : MRet result := λ A a, Ok a.
#[global] Instance result_bind : MBind result := λ A B f r,
  match r with Ok a => f a | Raise e => Raise e end.

(** [d[k]] on the insertion-ordered association list of a dict. *)
Fixpoint assoc (k : string) (d : list (string * json)) : option json :=
  match d with
  | [] => None
  | (k', v) :: d' => if decide (k' = k) then Some v else assoc k d'
  end.

(** [o.get(key, dflt)]: only dicts have the method. *)
Definition py_get (o : json) (key : string) (dflt : json) : result json :=
  match o with
  | JDict d => Ok (default dflt (assoc key d))
  | _ => Raise AttributeError
  end.

(** The reserved column and the row every record starts from:
    [flat = {"site_name": prefix}]. *)
Definition site_name : string := "site_name".

Definition new_row (prefix : string) : gmap string json :=
  <[site_name := JStr prefix]> ∅.

(** ** Text: whitespace, [str.strip], [re.split] and [str.join]

    A Python [str] is read as the sequence of its code points, here the code
    points below 256 that a [string] holds. *)

(** [c.isspace()], which is also what the pattern [\s] matches: the code
    points 9-13, 28-32, 133 and 160. *)
Definition is_space (c : Ascii.ascii) : bool :=
  let n := Ascii.nat_of_ascii c in
  ((9 <=? n) && (n <=? 13)) || ((28 <=? n) && (n <=? 32))
  || (n =? 133) || (n =? 160).

(** One character of the class [[\s,;|]]: whitespace, the comma (44), the
    semicolon (59) or the bar (124). *)
Definition is_sep (c : Ascii.ascii) : bool :=
  let n := Ascii.nat_of_ascii c in
  is_space c || (n =? 44) || (n =? 59) || (n =? 124).

(** [s.lstrip()], [s.rstrip()] and [s.strip()]. *)
Fixpoint lstrip (s : string) : string :=
  match s with
  | EmptyString => EmptyString
  | String c s' => if is_space c then lstrip s' else s
  end.

Fixpoint rstrip (s : string) : string :=
  match s with
  | EmptyString => EmptyString
  | String c s' =>
      match rstrip s' with
      | EmptyString => if is_space c then EmptyString else String c EmptyString
      | r => String c r
      end
  end.

Definition py_strip (s : string) : string := rstrip (lstrip s).

Definition starts_with_sep (s : string) : bool :=
  match s with String c _ => is_sep c | EmptyString => false end.

(** [re.split(r"[\s,;|]+", s)]: the pieces of [s] between the maximal runs
    of separator characters; a run at either end leaves an empty piece
    there, and the empty text gives the one empty piece. *)
Fixpoint re_split_seps (s : string) : list string :=
  match s with
  | EmptyString => [EmptyString]
  | String c s' =>
      if is_sep c then
        (* inside a run the match goes on; its last character ends a piece *)
        if starts_with_sep s' then re_split_seps s'
        else EmptyString :: re_split_seps s'
      else
        match re_split_seps s' with
        | piece :: pieces => String c piece :: pieces
        | [] => [String c EmptyString]
        end
  end.

(** [[s.strip() for s in re.split(r"[\s,;|]+", id_text.strip())
      if s.strip()]]: [normalize_ids], with the same body in both GUI
    classes. *)
Definition normalize_ids (id_text : string) : list string :=
  py_strip <$>
    filter (λ s, Is_true (str_truthy (py_strip s)))
      (re_split_seps (py_strip id_text)).

(** [sep.join(items)] is [String.concat sep items]. *)

(** No character of [s] is a separator; [s] with its separators removed;
    and a token as [normalize_ids] returns them: not empty, no separator. *)
Fixpoint no_sep (s : string) : bool :=
  match s with
  | EmptyString => true
  | String c s' => negb (is_sep c) && no_sep s'
  end.

Fixpoint drop_seps (s : string) : string :=
  match s with
  | EmptyString => EmptyString
  | String c s' => if is_sep c then drop_seps s' else String c (drop_seps s')
  end.

Definition clean_token (s : string) : bool := str_truthy s && no_sep s.

(** Every character of [s] is a separator. *)
Fixpoint only_seps (s : string) : bool :=
  match s with
  | EmptyString => true
  | String c s' => is_sep c && only_seps s'
  end.

(** The line feed, ["\n"], and the comma. *)
Definition newline : string := String (Ascii.ascii_of_nat 10) EmptyString.

Definition comma : string := ",".

(** The non-empty pieces of [re_split_seps]. *)
Definition pieces_of (s : string) : list string :=
  filter (λ p, Is_true (str_truthy p)) (re_split_seps s).

(** ** src/apps/gui/email_scholarone_gui_app.py *)

Module Email.

(** The inner [_recurse(o, parent_key="")] of [flatten_json]. *)
Fixpoint _recurse (o : json) (parent_key : string) : gmap string json :=
  match o with
  | JDict d =>
      (fix loop (d : list (string * json)) (items : gmap string json) :=
         match d with
         | [] => items
         | (k, v) :: d' =>
             let new_key :=
               if str_truthy parent_key then parent_key +:+ "." +:+ k else k in
             loop d' (Core.update items (_recurse v new_key))
         end) d ∅
  | JList l =>
      (fix loop (l : list json) (i : nat) (items : gmap string json) :=
         match l with
         | [] => items
         | v :: l' =>
             let new_key :=
               if str_truthy parent_key
               then parent_key +:+ "_" +:+ str_of_nat i else str_of_nat i in
             loop l' (S i) (Core.update items (_recurse v new_key))
         end) l 1 ∅
  | _ => <[parent_key := o]> ∅
  end.

(** [obj.get("Response", {}).get("result", {}).get("submission")] *)
Definition submissions_of (obj : json) : result json :=
  r ← py_get obj "Response" (JDict []);
  res ← py_get r "result" (JDict []);
  py_get res "submission" JNull.

(** [flat = {"site_name": prefix}; flat.update(_recurse(item))] *)
Definition row_of (prefix : string) (item : json) : gmap string json :=
  Core.update (new_row prefix) (_recurse item "").

Definition flatten_json (obj : json) (prefix : string)
  : list (gmap string json) :=
  match submissions_of obj with
  | Ok (JList submissions) =>
      (* for item in submissions: ... rows.append(flat); return rows *)
      foldl (λ rows item, rows ++ [row_of prefix item]) [] submissions
  | Ok _ =>
      (* not a list: fall through to the fallback *)
      [row_of prefix obj]
  | Raise _ =>
      (* except Exception: pass *)
      [row_of prefix obj]
  end.

(** The batching step of [run_query]; [batch_size] is
    [int(conf.get("batch_size", 25))] and [id_kind] is
    [conf.get("id_kind")]. *)
Definition id_kind_truthy (id_kind : option string) : bool :=
  match id_kind with Some s => str_truthy s | None => false end.

(** [range(0, stop, step)] *)
Definition py_range0 (stop : nat) (step : Z) : result (list nat) :=
  if decide (step = 0)%Z then Raise ValueError
  else if decide (step < 0)%Z then Ok []
  else
    let n := Z.to_nat step in
    Ok ((λ j, j * n) <$> seq 0 ((stop + n - 1) `div` n)).

(** [xs[i:j]] for [0 <= i <= j]. *)
Definition slice {A} (xs : list A) (i j : nat) : list A :=
  take (j - i) (drop i xs).

Definition plan_batches (id_kind : option string) (id_values : list string)
    (batch_size : Z) : result (list (list (option string))) :=
  if id_kind_truthy id_kind && bool_decide (id_values ≠ []) then
    starts ← py_range0 (length id_values) batch_size;
    Ok ((λ i : nat, Some <$> slice id_values i (i + Z.to_nat batch_size))
          <$> (starts : list nat))
  else Ok [[None]].

End Email.

(** ** src/apps/gui/scholarone_gui_app.py *)

Module Gui.

(** [f"{flat_key}_{n}"] *)
Definition with_suffix (flat_key : string) (n : nat) : string :=
  flat_key +:+ "_" +:+ str_of_nat n.

(** [while f"{flat_key}_{suffix}" in flat: suffix += 1], run for at most
    [fuel] tests of the condition; [None] when the fuel runs out first. *)
Fixpoint suffix_loop (fuel : nat) (flat : gmap string json)
    (flat_key : string) (suffix : nat) : option nat :=
  match fuel with
  | O => None
  | S fuel' =>
      if decide (with_suffix flat_key suffix ∈ dom flat)
      then suffix_loop fuel' flat flat_key (S suffix)
      else Some suffix
  end.

(** The scalar branch of [recurse], after [flat_key] has been computed:
    lines 59-64.  The loop is given [size flat + 1] tests, which always
    suffice ([suffix_loop_enough] below), so the last branch is never
    taken. *)
Definition store_leaf (flat : gmap string json) (flat_key : string)
    (o : json) : gmap string json :=
  if decide (flat_key ∈ dom flat) then
    match suffix_loop (S (size flat)) flat flat_key 2 with
    | Some suffix => <[with_suffix flat_key suffix := o]> flat
    | None => flat
    end
  else <[flat_key := o]> flat.

(** [flat_key = ".".join(path)], then
    [flat_key = f"{flat_key}_{index+1}"] when an index was passed. *)
Definition leaf_key (path : list string) (index : option nat) : string :=
  let flat_key := String.concat "." path in
  match index with
  | Some i => with_suffix flat_key (i + 1)
  | None => flat_key
  end.

(** [recurse(o, path=None, index=None)], with the row [flat] of the
    enclosing scope threaded through as state. *)
Fixpoint recurse (o : json) (path : option (list string)) (index : option nat)
    (flat : gmap string json) : gmap string json :=
  let path := default [] path in
  match o with
  | JDict d =>
      (fix loop (d : list (string * json)) (flat : gmap string json) :=
         match d with
         | [] => flat
         | (k, v) :: d' => loop d' (recurse v (Some (path ++ [k])) None flat)
         end) d flat
  | JList l =>
      (fix loop (l : list json) (i : nat) (flat : gmap string json) :=
         match l with
         | [] => flat
         | item :: l' => loop l' (S i) (recurse item (Some path) (Some i) flat)
         end) l 0 flat
  | _ => store_leaf flat (leaf_key path index) o
  end.

(** [a or b], where [b] is only evaluated when [a] is falsy. *)
Definition py_or (a : json) (b : result json) : result json :=
  if truthy a then Ok a else b.

(** Line 66: the three candidate places of the record list. *)
Definition content_of (obj : json) : result json :=
  r1 ← py_get obj "Response" (JDict []);
  res1 ← py_get r1 "result" (JDict []);
  a ← py_get res1 "submission" JNull;
  py_or a (
    r2 ← py_get obj "Response" (JDict []);
    b ← py_get r2 "result" (JDict []);
    py_or b (py_get obj "result" (JDict []))).

Definition row_of (prefix : string) (item : json) : gmap string json :=
  recurse item (Some []) None (new_row prefix).

Definition flatten_json (obj : json) (prefix : string)
  : result (list (gmap string json)) :=
  content ← content_of obj;
  match content with
  | JList items =>
      Ok (foldl (λ result item, result ++ [row_of prefix item]) [] items)
  | _ => Ok [row_of prefix obj]
  end.

(** The batching step of [submit_request]: 25 ids per request. *)
Definition plan_batches (id_kind : option string) (ids : list string)
  : list (list (option string)) :=
  if Email.id_kind_truthy id_kind && bool_decide (ids ≠ []) then
    (λ i, Some <$> Email.slice ids i (i + 25))
      <$> ((λ j, j * 25) <$> seq 0 ((length ids + 24) `div` 25))
  else [[None]].

End Gui.

(** ** The request side of the two tools

    The methods of [ScholarOneAPITool] that turn the endpoint configuration,
    the selected site and one batch into the query of one GET request.  A
    query is a Python dict from parameter names to values; a value is a
    [str] ([JStr]) or [None] ([JNull]). *)

(** One entry of [ENDPOINTS]; a key the entry does not have is [None]. *)
Record endpoint_conf : Type := {
  conf_path : string;
  conf_requires_date : bool;
  conf_id_kind : option string;
  conf_id_param : option string;
  conf_batch_size : option Z
}.

(** An element of a batch as a Python value. *)
Definition batch_value (x : option string) : json :=
  match x with Some s => JStr s | None => JNull end.

(** [sep.join(batch)]; [None] stands for the TypeError that a [None]
    element raises. *)
Definition join_batch (sep : string) (batch : list (option string))
  : option string :=
  String.concat sep <$> mapM (λ x : option string, x) batch.

(** [x or dflt] on an optional string. *)
Definition str_or (x : option string) (dflt : string) : string :=
  match x with
  | Some s => if str_truthy s then s else dflt
  | None => dflt
  end.

(** The tokens a query carries under the parameter [pname], read back with
    [normalize_ids]. *)
Definition tokens_sent (pname : string) (q : gmap string json) : list string :=
  match q !! pname with
  | Some (JStr v) => normalize_ids v
  | _ => []
  end.

Module GuiTool.

(** [ENDPOINTS] of scholarone_gui_app.py. *)
Definition endpoint (path : string) (requires_date : bool)
    (id_kind : option string) : endpoint_conf :=
  {| conf_path := path; conf_requires_date := requires_date;
     conf_id_kind := id_kind; conf_id_param := None;
     conf_batch_size := None |}.

Definition ENDPOINTS : list (string * endpoint_conf) :=
  [ ("getSubmissionInfoFull",
     endpoint "/api/s1m/v9/submissions/full/metadata/submissionids" false (Some "submissionIds"));
    ("getDocumentInfoFull",
     endpoint "/api/s1m/v9/submissions/full/metadata/documentids" false (Some "documentIds"));
    ("getPersonInfoFullID",
     endpoint "/api/s1m/v7/person/full/personids/search" false (Some "personIds"));
    ("getPersonInfoFullEmail",
     endpoint "/api/s1m/v7/person/full/email/search" false (Some "emails"));
    ("getAuthorInfoFull",
     endpoint "/api/s1m/v3/submissions/full/contributors/authors/submissionids" false (Some "submissionIds"));
    ("getEditorAssignmentsByDate",
     endpoint "/api/s1m/v1/submissions/full/editorAssignmentsByDate" true None);
    ("getIDsByDate",
     endpoint "/api/s1m/v4/submissions/full/idsByDate" true None);
    ("getSubmissionMetadataInfo",
     endpoint "/api/s1m/v3/submissions/full/metadatainfo/submissionids" false (Some "submissionIds"));
    ("getDocumentMetadataInfo",
     endpoint "/api/s1m/v3/submissions/full/metadatainfo/documentids" false (Some "documentIds"));
    ("getSubmissionReviewerInfoFull",
     endpoint "/api/s1m/v2/submissions/full/reviewer/submissionids" false (Some "submissionIds"));
    ("getDocumentReviewerInfoFull",
     endpoint "/api/s1m/v2/submissions/full/reviewer/documentids" false (Some "documentIds"));
    ("getSubmissionVersions",
     endpoint "/api/s1m/v2/submissions/full/revisions/submissionids" false (Some "submissionIds"));
    ("getDocumentVersions",
     endpoint "/api/s1m/v2/submissions/full/revisions/documentids" false (Some "documentIds")) ].

(** The query of one request of [submit_request]: [params] with the dates
    when the endpoint requires them, copied, and [ids] set to the comma-joined
    batch unless the batch is the sentinel.  [None]: the join raises. *)
Definition build_query (site : string) (dates : option (string * string))
    (id_kind : option string) (batch : list (option string))
  : option (gmap string json) :=
  let params : gmap string json :=
    <["site_name" := JStr site]> (<["_type" := JStr "json"]> ∅) in
  let params :=
    match dates with
    | Some (start_date, end_date) =>
        <["to_time" := JStr end_date]> (<["from_time" := JStr start_date]> params)
    | None => params
    end in
  if Email.id_kind_truthy id_kind && bool_decide (batch ≠ [None]) then
    ids ← join_batch "," batch; Some (<["ids" := JStr ids]> params)
  else Some params.

End GuiTool.

Module EmailTool.

(** [as_csv(items)] *)
Definition as_csv (items : list (option string)) : option string :=
  join_batch "," items.

(** [ENDPOINTS] of email_scholarone_gui_app.py: only the email search has an
    [id_kind], an [id_param] and a [batch_size]. *)
Definition endpoint (path : string) (requires_date : bool) : endpoint_conf :=
  {| conf_path := path; conf_requires_date := requires_date;
     conf_id_kind := None; conf_id_param := None; conf_batch_size := None |}.

Definition ENDPOINTS : list (string * endpoint_conf) :=
  [ ("getSubmissionInfoFull",
     endpoint "/api/s1m/v9/submissions/full/metadata/submissionids" false);
    ("getDocumentInfoFull",
     endpoint "/api/s1m/v9/submissions/full/metadata/documentids" false);
    ("getPersonInfoFullID",
     endpoint "/api/s1m/v7/person/full/personids/search" false);
    ("getPersonInfoFullEmail",
     {| conf_path := "/api/s1m/v7/person/full/email/search";
        conf_requires_date := false;
        conf_id_kind := Some "emails";
        conf_id_param := Some "primary_email";
        conf_batch_size := Some 1%Z |});
    ("getAuthorInfoFull",
     endpoint "/api/s1m/v3/submissions/full/contributors/authors/submissionids" false);
    ("getEditorAssignmentsByDate",
     endpoint "/api/s1m/v1/submissions/full/editorAssignmentsByDate" true);
    ("getIDsByDate",
     endpoint "/api/s1m/v4/submissions/full/idsByDate" true);
    ("getSubmissionMetadataInfo",
     endpoint "/api/s1m/v3/submissions/full/metadatainfo/submissionids" false);
    ("getDocumentMetadataInfo",
     endpoint "/api/s1m/v3/submissions/full/metadatainfo/documentids" false);
    ("getSubmissionReviewerInfoFull",
     endpoint "/api/s1m/v2/submissions/full/reviewer/submissionids" false);
    ("getDocumentReviewerInfoFull",
     endpoint "/api/s1m/v2/submissions/full/reviewer/documentids" false);
    ("getSubmissionVersions",
     endpoint "/api/s1m/v2/submissions/full/revisions/submissionids" false);
    ("getDocumentVersions",
     endpoint "/api/s1m/v2/submissions/full/revisions/documentids" false) ].

(** [int(conf.get("batch_size", 25))] *)
Definition batch_size_of (conf : endpoint_conf) : Z :=
  default 25%Z (conf_batch_size conf).

(** The batches [run_query] plans for an endpoint and the tokens entered. *)
Definition batches_for (conf : endpoint_conf) (id_values : list string)
  : result (list (list (option string))) :=
  Email.plan_batches (conf_id_kind conf) id_values (batch_size_of conf).

(** The query of one request of [run_query].  [None]: [batch[0]] on an
    empty batch, or the join of a batch that holds [None], raises. *)
Definition build_query (site : string) (params_date : gmap string json)
    (id_kind id_param : option string) (batch : list (option string))
  : option (gmap string json) :=
  let q : gmap string json :=
    Core.update (<["site_name" := JStr site]> (<["_type" := JStr "json"]> ∅))
      params_date in
  if Email.id_kind_truthy id_kind && bool_decide (batch ≠ [None]) then
    if decide (id_kind = Some "emails") then
      let pname := str_or id_param "primary_email" in
      value ← head batch;
      Some (<[pname := batch_value value]> q)
    else
      let pname := str_or id_param "ids" in
      if decide (length batch = 1) then
        value ← head batch; Some (<[pname := batch_value value]> q)
      else
        csv ← as_csv batch; Some (<[pname := JStr csv]> q)
  else Some q.

End EmailTool.

(** ** The flattening recursion in the words of the specification *)

Module Spec.

(** "path [pathPrefix + separator + k] (or just [k] if [pathPrefix] is
    empty)" *)
Definition map_path (pathPrefix separator k : string) : string :=
  if decide (pathPrefix = "") then k else pathPrefix +:+ separator +:+ k.

(** "path [pathPrefix + "_" + i] (or [i] alone if [pathPrefix] is empty)" *)
Definition seq_path (pathPrefix : string) (i : nat) : string :=
  if decide (pathPrefix = "") then str_of_nat i
  else pathPrefix +:+ "_" +:+ str_of_nat i.

(** "merge the resulting mapping into the accumulator": the later write
    wins. *)
Definition merge_into (accumulator m : gmap string json) : gmap string json :=
  m ∪ accumulator.

(** "for each element at 1-based position [i]": the elements of a
    sequence paired with their positions, counting from [start]. *)
Definition map_positions {A B} (f : nat → A → B) : nat → list A → list B :=
  fix go (i : nat) (l : list A) : list B :=
    match l with
    | [] => []
    | x :: l' => f i x :: go (S i) l'
    end.

Fixpoint flatten_spec (value : json) (pathPrefix separator : string)
  : gmap string json :=
  match value with
  | JDict d =>
      foldl merge_into ∅
        ((λ kv : string * json,
            flatten_spec kv.2 (map_path pathPrefix separator kv.1) separator)
           <$> d)
  | JList l =>
      foldl merge_into ∅
        (map_positions
           (λ i v, flatten_spec v (seq_path pathPrefix i) separator) 1 l)
  | _ => {[ pathPrefix := value ]}
  end.

(** The flat path keys of the scalar leaves of a value, one per leaf, in
    traversal order. *)
Fixpoint leaf_keys (value : json) (pathPrefix separator : string)
  : list string :=
  match value with
  | JDict d =>
      concat ((λ kv : string * json,
                 leaf_keys kv.2 (map_path pathPrefix separator kv.1) separator)
                <$> d)
  | JList l =>
      concat (map_positions
                (λ i v, leaf_keys v (seq_path pathPrefix i) separator) 1 l)
  | _ => [pathPrefix]
  end.

End Spec.

(** ** Payloads and rows used as examples *)

(** The value of the specification's example, [{"a": [1, {"b": 2}]}]. *)
Definition leaf_example : json :=
  JDict [("a", JList [JInt 1; JDict [("b", JInt 2)]])].

(** Two leaves that meet under one flat path key:
    [{"a": {"b": 1}, "a.b": 2}]. *)
Definition colliding_example : json :=
  JDict [("a", JDict [("b", JInt 1)]); ("a.b", JInt 2)].

(** A row in which [a] and [a_2] are taken: the next [a] goes to [a_3]. *)
Definition crowded_row : gmap string json :=
  <["a_2" := JInt 2]> (<["a" := JInt 1]> (new_row "siteA")).

(** The envelope of the specification's example:
    [{"Response": {"result": {"submission": [{"id": 1}, {"id": 2}]}}}]. *)
Definition envelope_example : json :=
  JDict [("Response",
          JDict [("result",
                  JDict [("submission",
                          JList [JDict [("id", JInt 1)];
                                 JDict [("id", JInt 2)]])])])].

(** An envelope whose record list is empty:
    [{"Response": {"result": {"submission": []}}}]; and a payload whose
    [result] is an empty list: [{"result": []}]. *)
Definition empty_envelope : json :=
  JDict [("Response", JDict [("result", JDict [("submission", JList [])])])].

Definition empty_result : json := JDict [("result", JList [])].

(** Payloads that are not shaped like the envelope: a top-level sequence
    [[{"id": 1}]] and a mapping whose [Response] is null. *)
Definition sequence_payload : json := JList [JDict [("id", JInt 1)]].

Definition null_response : json := JDict [("Response", JNull)].

(** A sequence of mappings below a key: [{"x": [{"a": 1}, {"b": 2}]}], and a
    sequence of sequences: [{"r": [[1, 2], [3]]}]. *)
Definition sequence_of_mappings : json :=
  JDict [("x", JList [JDict [("a", JInt 1)]; JDict [("b", JInt 2)]])].

Definition sequence_of_sequences : json :=
  JDict [("r", JList [JList [JInt 1; JInt 2]; JList [JInt 3]])].

(** ** Auxiliary facts: positions, merging, strings *)

Section map_positions.
Context {A B : Type}.
Implicit Types (f g : nat → A → B) (l : list A).

Lemma map_positions_ext f g i l :
  Forall (λ x, ∀ j, f j x = g j x) l →
  Spec.map_positions f i l = Spec.map_positions g i l.
Proof.
  intros Hl. revert i.
  induction Hl as [|x l Hx _ IH]; intros i; simpl; [done|].
  by rewrite Hx, IH.
Qed.

Lemma map_positions_fmap {C} (h : B → C) f i l :
  h <$> Spec.map_positions f i l = Spec.map_positions (λ j x, h (f j x)) i l.
Proof. revert i. induction l as [|x l IH]; intros i; simpl; [done|]. by rewrite IH. Qed.

Lemma map_positions_const (h : A → B) i l :
  Spec.map_positions (λ _, h) i l = h <$> l.
Proof. revert i. induction l as [|x l IH]; intros i; simpl; [done|]. by rewrite IH. Qed.

Lemma Forall_map_positions (Q : B → Prop) f i l :
  Forall (λ x, ∀ j, Q (f j x)) l → Forall Q (Spec.map_positions f i l).
Proof.
  intros Hl. revert i.
  induction Hl as [|x l Hx _ IH]; intros i; simpl; constructor; auto.
Qed.
End map_positions.

Section merging.
Implicit Types (acc m : gmap string json) (ms : list (gmap string json)).

Lemma merge_into_Forall (P : string → json → Prop) acc ms :
  map_Forall P acc → Forall (map_Forall P) ms →
  map_Forall P (foldl Spec.merge_into acc ms).
Proof.
  intros Hacc Hms. revert acc Hacc.
  induction Hms as [|m ms Hm _ IH]; intros acc Hacc; simpl; [done|].
  apply IH. by apply map_Forall_union_2.
Qed.

Lemma merge_into_dom acc ms :
  dom (foldl Spec.merge_into acc ms) = dom acc ∪ ⋃ (dom <$> ms).
Proof.
  revert acc. induction ms as [|m ms IH]; intros acc; simpl.
  - by rewrite (right_id_L ∅ (∪)).
  - rewrite IH. unfold Spec.merge_into.
    rewrite dom_union_L, (assoc_L (∪)).
    f_equal. apply (comm_L (∪)).
Qed.

End merging.

Lemma list_to_set_concat (ks : list (list string)) :
  list_to_set (C := gset string) (concat ks) = ⋃ (list_to_set <$> ks).
Proof.
  induction ks as [|k ks IH]; simpl; [done|].
  by rewrite list_to_set_app_L, IH.
Qed.

Lemma size_list_to_set_le (l : list string) :
  size (list_to_set (C := gset string) l) ≤ length l.
Proof.
  induction l as [|x l IH].
  - by rewrite list_to_set_nil, size_empty.
  - rewrite list_to_set_cons, size_union_alt, size_singleton. simpl.
    pose proof (subseteq_size (list_to_set l ∖ {[x]}) (list_to_set (C := gset string) l)
                  (subseteq_difference_l _ _ _ (reflexivity _))).
    lia.
Qed.

Lemma dict_key_spec pk sep k : Core.dict_key pk sep k = Spec.map_path pk sep k.
Proof. by destruct pk. Qed.

Lemma list_key_spec pk i : Core.list_key pk i = Spec.seq_path pk i.
Proof. by destruct pk. Qed.

Lemma length_concat_sum (ks : list (list string)) :
  length (concat ks) = sum_list (length <$> ks).
Proof.
  induction ks as [|k ks IH]; simpl; [done|].
  by rewrite length_app, IH.
Qed.

(** ** [Core.flatten] computes the specified recursion *)

Section core_loops.
Variables (parent_key sep : string).

(** The two [for] loops of [flatten], as folds over the flattened
    children. *)
Lemma flatten_dict_fold d :
  Core.flatten (JDict d) parent_key sep =
  foldl Core.update ∅
    ((λ kv : string * json,
        Core.flatten kv.2 (Core.dict_key parent_key sep kv.1) sep) <$> d).
Proof.
  cbn [Core.flatten]. generalize (∅ : gmap string json).
  induction d as [|[k v] d IH]; intros items; simpl; [done|]. apply IH.
Qed.

Lemma flatten_list_fold l :
  Core.flatten (JList l) parent_key sep =
  foldl Core.update ∅
    (Spec.map_positions
       (λ i v, Core.flatten v (Core.list_key parent_key i) sep) 1 l).
Proof.
  cbn [Core.flatten]. generalize (∅ : gmap string json). generalize 1.
  induction l as [|v l IH]; intros i items; simpl; [done|]. apply IH.
Qed.
End core_loops.

Lemma flatten_eq_spec o :
  ∀ parent_key sep,
    Core.flatten o parent_key sep = Spec.flatten_spec o parent_key sep.
Proof.
  induction o as [| | | | |l IH|d IH] using json_nested_ind;
    intros parent_key sep; try reflexivity.
  - rewrite flatten_list_fold. cbn [Spec.flatten_spec]. f_equal.
    apply map_positions_ext. eapply Forall_impl; [exact IH|].
    intros v Hv i. cbn beta. by rewrite Hv, list_key_spec.
  - rewrite flatten_dict_fold. cbn [Spec.flatten_spec]. f_equal.
    apply Forall_fmap_ext. eapply Forall_impl; [exact IH|].
    intros [k v] Hv. cbn beta. cbn [fst snd] in *. by rewrite Hv, dict_key_spec.
Qed.

Lemma email_recurse_eq_flatten o :
  ∀ parent_key, Email._recurse o parent_key = Core.flatten o parent_key ".".
Proof.
  induction o as [| | | | |l IH|d IH] using json_nested_ind;
    intros parent_key; try reflexivity.
  - cbn [Email._recurse Core.flatten].
    generalize (∅ : gmap string json). generalize 1.
    induction IH as [|v l Hv _ IHl]; intros i items; [done|].
    cbn zeta. rewrite Hv. apply IHl.
  - cbn [Email._recurse Core.flatten].
    generalize (∅ : gmap string json).
    induction IH as [|[k v] d Hv _ IHd]; intros items; [done|].
    cbn zeta. cbn [snd] in Hv. rewrite Hv. apply IHd.
Qed.

(** Claim C4: [flatten] of src/core/flatten.py follows the specified
    recursion.  It agrees, on every value, path prefix and separator, with
    [Spec.flatten_spec], which descends into a mapping with the path
    [pathPrefix + separator + k] (just [k] for an empty prefix), into a
    sequence with [pathPrefix + "_" + i] at the 1-based position [i] ([i]
    alone for an empty prefix), and records [accumulator[pathPrefix] = value]
    for anything else; empty mappings and empty sequences give no keys. *)
Theorem flatten_follows_spec :
  (∀ value pathPrefix separator,
     Core.flatten value pathPrefix separator
     = Spec.flatten_spec value pathPrefix separator)
  ∧ (∀ pathPrefix separator, Core.flatten (JDict []) pathPrefix separator = ∅)
  ∧ (∀ pathPrefix separator, Core.flatten (JList []) pathPrefix separator = ∅).
Proof. split; [apply flatten_eq_spec|]. split; reflexivity. Qed.

(** ** Scalars only, and the number of entries *)

Lemma flatten_spec_scalars o :
  ∀ pk sep,
    map_Forall (λ _ x, is_scalar x = true) (Spec.flatten_spec o pk sep).
Proof.
  induction o as [| | | | |l IH|d IH] using json_nested_ind; intros pk sep;
    try (by apply map_Forall_singleton).
  - cbn [Spec.flatten_spec].
    apply merge_into_Forall; [apply map_Forall_empty|].
    apply Forall_map_positions. eapply Forall_impl; [exact IH|].
    intros v Hv i. apply Hv.
  - cbn [Spec.flatten_spec].
    apply merge_into_Forall; [apply map_Forall_empty|].
    apply Forall_fmap. eapply Forall_impl; [exact IH|].
    intros [k v] Hv. apply Hv.
Qed.

Lemma flatten_spec_dom o :
  ∀ pk sep,
    dom (Spec.flatten_spec o pk sep) = list_to_set (Spec.leaf_keys o pk sep).
Proof.
  induction o as [| | | | |l IH|d IH] using json_nested_ind; intros pk sep;
    try (cbn [Spec.flatten_spec Spec.leaf_keys];
         by rewrite dom_singleton_L, list_to_set_singleton_L).
  - cbn [Spec.flatten_spec Spec.leaf_keys].
    rewrite merge_into_dom, dom_empty_L, (left_id_L ∅ (∪)), list_to_set_concat.
    f_equal. rewrite !map_positions_fmap.
    apply map_positions_ext. eapply Forall_impl; [exact IH|].
    intros v Hv i. apply Hv.
  - cbn [Spec.flatten_spec Spec.leaf_keys].
    rewrite merge_into_dom, dom_empty_L, (left_id_L ∅ (∪)), list_to_set_concat.
    f_equal. rewrite <-!list_fmap_compose.
    apply Forall_fmap_ext. eapply Forall_impl; [exact IH|].
    intros [k v] Hv. apply Hv.
Qed.

Lemma leaf_keys_length o :
  ∀ pk sep, length (Spec.leaf_keys o pk sep) = count_leaves o.
Proof.
  induction o as [| | | | |l IH|d IH] using json_nested_ind; intros pk sep;
    try reflexivity.
  - cbn [Spec.leaf_keys count_leaves].
    rewrite length_concat_sum, map_positions_fmap. f_equal.
    rewrite <-(map_positions_const count_leaves 1 l).
    apply map_positions_ext. eapply Forall_impl; [exact IH|].
    intros v Hv i. apply Hv.
  - cbn [Spec.leaf_keys count_leaves].
    rewrite length_concat_sum. f_equal. rewrite <-list_fmap_compose.
    apply Forall_fmap_ext. eapply Forall_impl; [exact IH|].
    intros [k v] Hv. apply Hv.
Qed.

Lemma flatten_size o pk sep :
  size (Core.flatten o pk sep)
  = size (list_to_set (C := gset string) (Spec.leaf_keys o pk sep)).
Proof. by rewrite flatten_eq_spec, <-size_dom, flatten_spec_dom. Qed.

(** Claim C7: [flatten] is a total function (it is defined by structural
    recursion on the finitely nested value, so every call returns), and every
    value of the mapping it returns is a scalar: none is a mapping or a
    non-string sequence. *)
Theorem flatten_values_scalar (v : json) (parent_key sep : string) :
  map_Forall (λ _ x, is_scalar x = true) (Core.flatten v parent_key sep).
Proof. rewrite flatten_eq_spec. apply flatten_spec_scalars. Qed.

(** Claim C10: for a scalar [v], [flatten(v)] with the default empty path
    prefix is the single-entry mapping whose only key is the empty string,
    with value [v]. *)
Theorem flatten_scalar_root (v : json) :
  is_scalar v = true → Core.flatten_default v = {[ "" := v ]}.
Proof. by destruct v. Qed.

Lemma flatten_scalar_root_witness :
  is_scalar (JStr "bar") = true
  ∧ Core.flatten_default (JStr "bar") = {[ "" := JStr "bar" ]}.
Proof. split; [reflexivity|]. apply (flatten_scalar_root (JStr "bar")). reflexivity. Defined.

(** Claim C3, as stated, fails: the well-formed value
    [{"a": {"b": 1}, "a.b": 2}] has two scalar leaves, and [flatten] returns
    the one entry [a.b = 2]. *)
Lemma flatten_leaf_count_counterexample :
  wf_json colliding_example = true
  ∧ Core.flatten_default colliding_example = {[ "a.b" := JInt 2 ]}
  ∧ size (Core.flatten_default colliding_example)
    ≠ count_leaves colliding_example.
Proof. vm_compute. split; [reflexivity|]. split; [reflexivity|]. discriminate. Qed.

(** Claim C3, amended: the number of entries of [flatten(v)] is at most the
    number of scalar leaves of [v], and equals it whenever the flat path keys
    of the leaves are pairwise distinct; [flatten({"a": [1, {"b": 2}]})] has
    exactly the two entries [a_1 = 1] and [a_2.b = 2]. *)
Theorem flatten_leaf_count (v : json) (parent_key sep : string) :
  size (Core.flatten v parent_key sep) ≤ count_leaves v
  ∧ (NoDup (Spec.leaf_keys v parent_key sep) →
     size (Core.flatten v parent_key sep) = count_leaves v)
  ∧ Core.flatten_default leaf_example
    = {[ "a_1" := JInt 1; "a_2.b" := JInt 2 ]}.
Proof.
  rewrite flatten_size, <-(leaf_keys_length v parent_key sep).
  split; [apply size_list_to_set_le|]. split; [apply size_list_to_set|].
  vm_compute. reflexivity.
Qed.

Lemma flatten_leaf_count_witness :
  NoDup (Spec.leaf_keys leaf_example "" ".")
  ∧ size (Core.flatten leaf_example "" ".") = count_leaves leaf_example.
Proof.
  assert (NoDup (Spec.leaf_keys leaf_example "" ".")) as Hnd.
  { apply (bool_decide_unpack _). vm_compute. exact I. }
  split; [exact Hnd|].
  exact (proj1 (proj2 (flatten_leaf_count leaf_example "" ".")) Hnd).
Defined.

(** ** The disambiguating store of scholarone_gui_app.py *)

Section suffix_loop.
Variables (flat : gmap string json) (flat_key : string).

#[local] Instance with_suffix_inj : Inj (=) (=) (Gui.with_suffix flat_key).
Proof.
  intros a b Hab. unfold Gui.with_suffix, str_of_nat in Hab.
  by apply (inj (String.append flat_key)), (inj (String.append "_")),
    (inj pretty) in Hab.
Qed.

(** What the loop returns is the least free suffix from its start. *)
Lemma suffix_loop_sound fuel s r :
  Gui.suffix_loop fuel flat flat_key s = Some r →
  s ≤ r
  ∧ (Gui.with_suffix flat_key r ∉ dom flat)
  ∧ ∀ t, s ≤ t < r → Gui.with_suffix flat_key t ∈ dom flat.
Proof.
  revert s. induction fuel as [|fuel IH]; intros s; simpl; [done|].
  case_decide as Hin.
  - intros (Hle & Hfree & Hbusy)%IH. split; [lia|]. split; [done|].
    intros t Ht. destruct (decide (t = s)) as [->|]; [done|].
    apply Hbusy. lia.
  - intros [= <-]. split; [done|]. split; [done|]. intros t Ht. lia.
Qed.

(** When the fuel runs out, every suffix tested was taken. *)
Lemma suffix_loop_exhausted fuel s :
  Gui.suffix_loop fuel flat flat_key s = None →
  ∀ t, s ≤ t < s + fuel → Gui.with_suffix flat_key t ∈ dom flat.
Proof.
  revert s. induction fuel as [|fuel IH]; intros s; simpl; [lia|].
  case_decide as Hin; [|done].
  intros Hnone t Ht. destruct (decide (t = s)) as [->|]; [done|].
  apply (IH (S s)); [done|lia].
Qed.

(** The row has finitely many keys and the candidates are pairwise
    distinct, so more tests than the row has entries always reach a free
    suffix: the [while] loop terminates. *)
Lemma suffix_loop_enough fuel s :
  size flat < fuel → is_Some (Gui.suffix_loop fuel flat flat_key s).
Proof.
  intros Hfuel.
  destruct (Gui.suffix_loop fuel flat flat_key s) as [r|] eqn:Hloop; [by eexists|].
  exfalso.
  pose proof (suffix_loop_exhausted _ _ Hloop) as Hbusy.
  assert (list_to_set (Gui.with_suffix flat_key <$> seq s fuel) ⊆ dom flat)
    as Hsub.
  { intros k [t [-> Ht]]%elem_of_list_to_set%list_elem_of_fmap.
    apply Hbusy. apply elem_of_seq in Ht. lia. }
  apply subseteq_size in Hsub.
  rewrite size_list_to_set, length_fmap, length_seq, size_dom in Hsub.
  - lia.
  - apply NoDup_fmap_2; [apply _|apply NoDup_seq].
Qed.

Lemma suffix_loop_mono fuel fuel' s r :
  Gui.suffix_loop fuel flat flat_key s = Some r → fuel ≤ fuel' →
  Gui.suffix_loop fuel' flat flat_key s = Some r.
Proof.
  revert fuel' s. induction fuel as [|fuel IH]; intros fuel' s; simpl; [done|].
  intros Hloop Hle. destruct fuel' as [|fuel']; [lia|]. simpl.
  case_decide; [|done]. apply IH; [done|lia].
Qed.

(** The answer does not depend on how much spare fuel there is. *)
Lemma suffix_loop_stable fuel s r :
  Gui.suffix_loop (S (size flat)) flat flat_key s = Some r →
  size flat < fuel → Gui.suffix_loop fuel flat flat_key s = Some r.
Proof. intros Hloop Hfuel. eapply suffix_loop_mono; [done|lia]. Qed.
End suffix_loop.

Section store_leaf.
Implicit Types (flat : gmap string json) (o : json).

Lemma store_leaf_collision flat flat_key o :
  flat_key ∈ dom flat →
  ∃ s, 2 ≤ s
    ∧ (∀ fuel, size flat < fuel →
         Gui.suffix_loop fuel flat flat_key 2 = Some s)
    ∧ (Gui.with_suffix flat_key s ∉ dom flat)
    ∧ (∀ t, 2 ≤ t < s → Gui.with_suffix flat_key t ∈ dom flat)
    ∧ Gui.store_leaf flat flat_key o = <[Gui.with_suffix flat_key s := o]> flat.
Proof.
  intros Hin. unfold Gui.store_leaf. rewrite decide_True by done.
  destruct (suffix_loop_enough flat flat_key (S (size flat)) 2) as [s Hs]; [lia|].
  rewrite Hs. exists s.
  destruct (suffix_loop_sound _ _ _ _ _ Hs) as (Hle & Hfree & Hbusy).
  split; [done|]. split; [|done].
  intros fuel Hfuel. by apply suffix_loop_stable.
Qed.

(** Either way the leaf goes under a key the row did not have. *)
Lemma store_leaf_fresh flat flat_key o :
  ∃ k, (k ∉ dom flat) ∧ Gui.store_leaf flat flat_key o = <[k := o]> flat.
Proof.
  destruct (decide (flat_key ∈ dom flat)) as [Hin|Hout].
  - destruct (store_leaf_collision flat flat_key o Hin)
      as (s & _ & _ & Hfree & _ & Heq). eauto.
  - exists flat_key. split; [done|]. unfold Gui.store_leaf.
    by rewrite decide_False by done.
Qed.

Lemma store_leaf_subseteq flat flat_key o :
  flat ⊆ Gui.store_leaf flat flat_key o.
Proof.
  destruct (store_leaf_fresh flat flat_key o) as (k & Hk & ->).
  apply insert_subseteq. by apply not_elem_of_dom.
Qed.

Lemma store_leaf_size flat flat_key o :
  size (Gui.store_leaf flat flat_key o) = S (size flat).
Proof.
  destruct (store_leaf_fresh flat flat_key o) as (k & Hk & ->).
  apply map_size_insert_None. by apply not_elem_of_dom.
Qed.

(** The whole traversal only ever adds entries: one per scalar leaf. *)
Lemma recurse_grows o :
  ∀ path index flat,
    flat ⊆ Gui.recurse o path index flat
    ∧ size (Gui.recurse o path index flat) = size flat + count_leaves o.
Proof.
  induction o as [| | | | |l IH|d IH] using json_nested_ind;
    intros path index flat;
    try (cbn [Gui.recurse count_leaves];
         split; [apply store_leaf_subseteq|rewrite store_leaf_size; lia]).
  - cbn [Gui.recurse count_leaves]. generalize 0. revert flat.
    induction IH as [|v l Hv _ IHl]; intros flat i;
      rewrite ?fmap_cons; simpl.
    { split; [done|lia]. }
    destruct (Hv (Some (default [] path)) (Some i) flat) as [Hsub Hsize].
    destruct (IHl (Gui.recurse v (Some (default [] path)) (Some i) flat) (S i))
      as [Hsub' Hsize'].
    split; [by etrans|]. rewrite Hsize', Hsize. lia.
  - cbn [Gui.recurse count_leaves]. revert flat.
    induction IH as [|[k v] d Hv _ IHd]; intros flat;
      rewrite ?fmap_cons; simpl.
    { split; [done|lia]. }
    cbn [snd] in Hv.
    destruct (Hv (Some (default [] path ++ [k])) None flat) as [Hsub Hsize].
    destruct (IHd (Gui.recurse v (Some (default [] path ++ [k])) None flat))
      as [Hsub' Hsize'].
    split; [by etrans|]. rewrite Hsize', Hsize. lia.
Qed.
End store_leaf.

(** Claim C6: in [flatten_json] of scholarone_gui_app.py, a leaf whose
    computed key is already in the row is stored under the key followed by
    [_s], where [s] is the least integer from 2 on whose suffixed key is not
    in the row (the [while] loop reaches it whatever fuel beyond the size of
    the row it is given); no entry of the row is overwritten, so the store of
    one leaf adds exactly one entry, and a whole traversal adds one entry per
    scalar leaf. *)
Theorem store_leaf_disambiguates (flat : gmap string json) (flat_key : string)
    (o : json) :
  (flat_key ∈ dom flat →
   ∃ s, 2 ≤ s
     ∧ (∀ fuel, size flat < fuel →
          Gui.suffix_loop fuel flat flat_key 2 = Some s)
     ∧ (Gui.with_suffix flat_key s ∉ dom flat)
     ∧ (∀ t, 2 ≤ t < s → Gui.with_suffix flat_key t ∈ dom flat)
     ∧ Gui.store_leaf flat flat_key o = <[Gui.with_suffix flat_key s := o]> flat)
  ∧ flat ⊆ Gui.store_leaf flat flat_key o
  ∧ size (Gui.store_leaf flat flat_key o) = S (size flat)
  ∧ (∀ v path index,
       flat ⊆ Gui.recurse v path index flat
       ∧ size (Gui.recurse v path index flat) = size flat + count_leaves v).
Proof.
  split; [apply store_leaf_collision|].
  split; [apply store_leaf_subseteq|].
  split; [apply store_leaf_size|].
  intros v path index. apply recurse_grows.
Qed.

Lemma store_leaf_disambiguates_witness :
  "a" ∈ dom crowded_row
  ∧ ∃ s, 2 ≤ s
      ∧ (∀ fuel, size crowded_row < fuel →
           Gui.suffix_loop fuel crowded_row "a" 2 = Some s)
      ∧ (Gui.with_suffix "a" s ∉ dom crowded_row)
      ∧ (∀ t, 2 ≤ t < s → Gui.with_suffix "a" t ∈ dom crowded_row)
      ∧ Gui.store_leaf crowded_row "a" (JInt 3)
        = <[Gui.with_suffix "a" s := JInt 3]> crowded_row.
Proof.
  assert ("a" ∈ dom crowded_row) as Hin.
  { apply (bool_decide_unpack _). vm_compute. exact I. }
  split; [exact Hin|].
  exact (proj1 (store_leaf_disambiguates crowded_row "a" (JInt 3)) Hin).
Defined.

Example store_leaf_crowded :
  Gui.store_leaf crowded_row "a" (JInt 3) = <["a_3" := JInt 3]> crowded_row.
Proof. vm_compute. reflexivity. Qed.

(** ** Row assembly *)

Lemma foldl_snoc_fmap {A B} (f : A → B) (acc : list B) (l : list A) :
  foldl (λ rows item, rows ++ [f item]) acc l = acc ++ (f <$> l).
Proof.
  revert acc. induction l as [|x l IH]; intros acc; simpl.
  - by rewrite app_nil_r.
  - by rewrite IH, <-app_assoc.
Qed.

Lemma new_row_site_name prefix : site_name ∈ dom (new_row prefix).
Proof. unfold new_row. rewrite dom_insert_L. apply elem_of_union_l, elem_of_singleton. done. Qed.

Lemma email_row_site_name prefix item : site_name ∈ dom (Email.row_of prefix item).
Proof.
  unfold Email.row_of, Core.update. rewrite dom_union_L.
  apply elem_of_union_r, new_row_site_name.
Qed.

Lemma gui_row_site_name prefix item : site_name ∈ dom (Gui.row_of prefix item).
Proof.
  unfold Gui.row_of.
  destruct (recurse_grows item (Some []) None (new_row prefix)) as [Hsub _].
  apply subseteq_dom in Hsub. apply Hsub, new_row_site_name.
Qed.

(** The email implementation never raises: it returns one row per element of
    the list at [Response.result.submission], and otherwise the one row of
    the whole payload. *)
Lemma email_flatten_json_cases obj prefix :
  Email.flatten_json obj prefix =
  match Email.submissions_of obj with
  | Ok (JList submissions) => Email.row_of prefix <$> submissions
  | _ => [Email.row_of prefix obj]
  end.
Proof.
  unfold Email.flatten_json.
  destruct (Email.submissions_of obj) as [[]|]; try reflexivity.
  apply (foldl_snoc_fmap (Email.row_of prefix) []).
Qed.

Lemma gui_flatten_json_cases obj prefix :
  Gui.flatten_json obj prefix =
  match Gui.content_of obj with
  | Ok (JList items) => Ok (Gui.row_of prefix <$> items)
  | Ok _ => Ok [Gui.row_of prefix obj]
  | Raise e => Raise e
  end.
Proof.
  unfold Gui.flatten_json.
  destruct (Gui.content_of obj) as [[]|]; try reflexivity.
  cbn. f_equal. apply (foldl_snoc_fmap (Gui.row_of prefix) []).
Qed.

(** Claim C8: every row record that [flatten_json] produces, in either GUI
    implementation and for any payload and source label, has the reserved key
    [site_name], whether the rows come from the record list of the envelope
    or from the whole-payload fallback. *)
Theorem rows_have_site_name (obj : json) (prefix : string) :
  Forall (λ row : gmap string json, site_name ∈ dom row)
    (Email.flatten_json obj prefix)
  ∧ ∀ rows, Gui.flatten_json obj prefix = Ok rows →
      Forall (λ row : gmap string json, site_name ∈ dom row) rows.
Proof.
  split.
  - rewrite email_flatten_json_cases.
    destruct (Email.submissions_of obj) as [[]|];
      try (apply Forall_singleton, email_row_site_name).
    apply Forall_fmap, Forall_true. intros item. apply email_row_site_name.
  - intros rows. rewrite gui_flatten_json_cases.
    destruct (Gui.content_of obj) as [[]|]; intros [= <-];
      try (apply Forall_singleton, gui_row_site_name).
    apply Forall_fmap, Forall_true. intros item. apply gui_row_site_name.
Qed.

Lemma rows_have_site_name_witness :
  ∃ rows, Gui.flatten_json envelope_example "siteA" = Ok rows
    ∧ Forall (λ row : gmap string json, site_name ∈ dom row) rows.
Proof.
  eexists. split; [vm_compute; reflexivity|].
  apply (proj2 (rows_have_site_name envelope_example "siteA")).
  vm_compute. reflexivity.
Defined.

(** The two row-assembly examples of the specification, on both
    implementations. *)
Example rows_of_envelope :
  Email.flatten_json envelope_example "siteA"
  = [ {[ site_name := JStr "siteA"; "id" := JInt 1 ]};
      {[ site_name := JStr "siteA"; "id" := JInt 2 ]} ]
  ∧ Gui.flatten_json envelope_example "siteA"
    = Ok [ {[ site_name := JStr "siteA"; "id" := JInt 1 ]};
           {[ site_name := JStr "siteA"; "id" := JInt 2 ]} ].
Proof. vm_compute. split; reflexivity. Qed.

Example rows_without_envelope :
  Email.flatten_json (JDict [("foo", JStr "bar")]) "siteB"
  = [ {[ site_name := JStr "siteB"; "foo" := JStr "bar" ]} ]
  ∧ Gui.flatten_json (JDict [("foo", JStr "bar")]) "siteB"
    = Ok [ {[ site_name := JStr "siteB"; "foo" := JStr "bar" ]} ].
Proof. vm_compute. split; reflexivity. Qed.

(** Claim C1, as stated, fails: on a non-null payload whose located record
    list is empty, the email implementation returns no row at all, and so
    does scholarone_gui_app.py on [{"result": []}]. *)
Lemma flatten_json_nonempty_counterexample :
  wf_json empty_envelope = true
  ∧ Email.flatten_json empty_envelope "siteA" = []
  ∧ wf_json empty_result = true
  ∧ Gui.flatten_json empty_result "siteA" = Ok [].
Proof. vm_compute. repeat split; reflexivity. Qed.

(** Claim C1, amended: [flatten_json] of the email implementation returns
    one row per element of the list found at [Response.result.submission]
    and exactly one row when no list is found there; [flatten_json] of
    scholarone_gui_app.py, whenever its envelope lookup returns, returns one
    row per element of the located list and exactly one row when what it
    located is not a list.  So the result is non-empty unless the located
    record list is empty, and then it is empty. *)
Theorem flatten_json_row_count (obj : json) (prefix : string) :
  length (Email.flatten_json obj prefix)
  = match Email.submissions_of obj with
    | Ok (JList submissions) => length submissions
    | _ => 1
    end
  ∧ ∀ content, Gui.content_of obj = Ok content →
      ∃ rows, Gui.flatten_json obj prefix = Ok rows
        ∧ length rows
          = match content with JList items => length items | _ => 1 end.
Proof.
  split.
  - rewrite email_flatten_json_cases.
    destruct (Email.submissions_of obj) as [[]|]; try reflexivity.
    apply length_fmap.
  - intros content Hcontent. rewrite gui_flatten_json_cases, Hcontent.
    destruct content; try (by eexists).
    eexists. split; [done|]. apply length_fmap.
Qed.

Lemma flatten_json_row_count_witness :
  Gui.content_of envelope_example
  = Ok (JList [JDict [("id", JInt 1)]; JDict [("id", JInt 2)]])
  ∧ ∃ rows, Gui.flatten_json envelope_example "siteA" = Ok rows
      ∧ length rows = 2.
Proof.
  split; [reflexivity|].
  exact (proj2 (flatten_json_row_count envelope_example "siteA") _ eq_refl).
Defined.

(** Claim C2 at its failing inputs: on a top-level sequence, and on a mapping
    with a null [Response], [flatten_json] of scholarone_gui_app.py raises
    [AttributeError] out of its envelope lookup, where the email
    implementation falls back to the one row of the whole payload. *)
Theorem gui_flatten_json_raises :
  wf_json sequence_payload = true
  ∧ Gui.flatten_json sequence_payload "siteA" = Raise AttributeError
  ∧ Email.flatten_json sequence_payload "siteA"
    = [ {[ site_name := JStr "siteA"; "1.id" := JInt 1 ]} ]
  ∧ wf_json null_response = true
  ∧ Gui.flatten_json null_response "siteA" = Raise AttributeError
  ∧ Email.flatten_json null_response "siteA"
    = [ {[ site_name := JStr "siteA"; "Response" := JNull ]} ].
Proof. vm_compute. repeat split; reflexivity. Qed.

(** What the claim says does hold of the email implementation: it is a total
    function, and any payload on which the lookup of the record list raises,
    for a wrong type on the way, yields the one fallback row. *)
Lemma email_flatten_json_fallback obj prefix e :
  Email.submissions_of obj = Raise e →
  Email.flatten_json obj prefix = [Email.row_of prefix obj].
Proof. intros Hraise. by rewrite email_flatten_json_cases, Hraise. Qed.

(** Claim C5 at its failing inputs: [recurse] of scholarone_gui_app.py passes
    [index] only to the call on the element itself, so a leaf below an
    element that is a mapping or a sequence loses the position of that
    element: the leaf [2] reached through position 2 of [x] gets the key
    [x.b], and the leaf [3] reached through position 2 of [r] gets [r_1_2].
    The email implementation keeps the positions. *)
Theorem gui_recurse_drops_index :
  wf_json sequence_of_mappings = true
  ∧ Gui.flatten_json sequence_of_mappings "siteA"
    = Ok [ {[ site_name := JStr "siteA"; "x.a" := JInt 1; "x.b" := JInt 2 ]} ]
  ∧ Email.flatten_json sequence_of_mappings "siteA"
    = [ {[ site_name := JStr "siteA"; "x_1.a" := JInt 1; "x_2.b" := JInt 2 ]} ]
  ∧ wf_json sequence_of_sequences = true
  ∧ Gui.flatten_json sequence_of_sequences "siteA"
    = Ok [ {[ site_name := JStr "siteA";
              "r_1" := JInt 1; "r_2" := JInt 2; "r_1_2" := JInt 3 ]} ]
  ∧ Email.flatten_json sequence_of_sequences "siteA"
    = [ {[ site_name := JStr "siteA";
           "r_1_1" := JInt 1; "r_1_2" := JInt 2; "r_2_1" := JInt 3 ]} ].
Proof. vm_compute. repeat split; reflexivity. Qed.

(** ** Batch planning *)

Section batches.
Context {A : Type}.
Implicit Types (xs : list A) (n k j : nat).

Lemma slice_chunk xs i n : Email.slice xs i (i + n) = take n (drop i xs).
Proof. unfold Email.slice. f_equal. lia. Qed.

(** The first [k] slices of width [n] put end to end are the first
    [k * n] elements. *)
Lemma concat_slices xs n k :
  concat ((λ i, Email.slice xs i (i + n)) <$> ((λ j, j * n) <$> seq 0 k))
  = take (k * n) xs.
Proof.
  induction k as [|k IH].
  - by rewrite take_0.
  - rewrite seq_S, !fmap_app, concat_app, IH. cbn [fmap list_fmap concat].
    rewrite app_nil_r, slice_chunk, take_take_drop. f_equal. lia.
Qed.

Lemma slices_lookup xs n k j b :
  ((λ i, Email.slice xs i (i + n)) <$> ((λ j, j * n) <$> seq 0 k)) !! j
  = Some b →
  j < k ∧ b = take n (drop (j * n) xs).
Proof.
  rewrite !list_lookup_fmap.
  destruct (seq 0 k !! j) as [j'|] eqn:Hj; [|done].
  apply lookup_seq in Hj as [-> Hlt]. cbn. intros [= <-].
  split; [done|]. apply slice_chunk.
Qed.

(** The number of slices [range(0, len(xs), n)] starts. *)
Lemma ceil_div_bounds (len n : nat) :
  0 < n → 0 < len →
  len ≤ (len + n - 1) `div` n * n ∧ ((len + n - 1) `div` n - 1) * n < len.
Proof.
  intros Hn Hlen.
  pose proof (Nat.div_mod_eq (len + n - 1) n) as Hdiv.
  pose proof (Nat.mod_upper_bound (len + n - 1) n) as Hmod.
  destruct ((len + n - 1) `div` n) as [|q]; [lia|].
  split; [lia|]. replace (S q - 1) with q by lia. lia.
Qed.
End batches.

Lemma concat_fmap_Some (bs : list (list string)) :
  concat ((λ b : list string, Some <$> b) <$> bs) = Some <$> concat bs.
Proof.
  induction bs as [|b bs IH]; [done|].
  cbn [fmap list_fmap concat] in *. by rewrite fmap_app, <-IH.
Qed.

(** With an id kind and a batch size of at least one, the planner of the
    email implementation cuts the tokens into consecutive batches. *)
Lemma email_plan_batches_partition id_kind ids (n : Z) :
  Email.id_kind_truthy id_kind = true → ids ≠ [] → (1 ≤ n)%Z →
  ∃ bs, Email.plan_batches id_kind ids n = Ok bs
    ∧ concat bs = Some <$> ids
    ∧ Forall (λ b, 1 ≤ length b ≤ Z.to_nat n) bs
    ∧ (∀ j b, bs !! j = Some b → S j < length bs → length b = Z.to_nat n).
Proof.
  intros Hkind Hids Hn. unfold Email.plan_batches, Email.py_range0.
  rewrite Hkind, bool_decide_eq_true_2 by done. cbn [andb].
  rewrite decide_False, decide_False by lia. cbn.
  set (m := Z.to_nat n). assert (0 < m) as Hm by lia.
  assert (0 < length ids) as Hlen by (destruct ids; [done|simpl; lia]).
  destruct (ceil_div_bounds (length ids) m Hm Hlen) as [Hup Hlow].
  set (k := (length ids + m - 1) `div` m) in *.
  eexists. split; [reflexivity|].
  set (cs := (λ i, Email.slice ids i (i + m)) <$> ((λ j, j * m) <$> seq 0 k)).
  assert ((λ i, Some <$> Email.slice ids i (i + m)) <$> ((λ j, j * m) <$> seq 0 k)
          = (λ b : list string, Some <$> b) <$> cs) as ->.
  { unfold cs. by rewrite <-!list_fmap_compose. }
  split; [|split].
  - rewrite concat_fmap_Some. unfold cs.
    by rewrite concat_slices, take_ge by lia.
  - apply Forall_fmap, Forall_lookup_2. intros j b Hb.
    apply slices_lookup in Hb as [Hj ->]. cbn.
    rewrite length_fmap, length_take, length_drop.
    assert (j * m ≤ (k - 1) * m) by (apply Nat.mul_le_mono_r; lia). lia.
  - intros j b. rewrite list_lookup_fmap.
    destruct (cs !! j) as [c|] eqn:Hc; [|done]. cbn. intros [= <-].
    apply slices_lookup in Hc as [Hj ->].
    unfold cs. rewrite !length_fmap, length_seq. intros Hlast.
    rewrite length_take, length_drop.
    assert (S j * m ≤ (k - 1) * m) by (apply Nat.mul_le_mono_r; lia). lia.
Qed.

(** [submit_request] of scholarone_gui_app.py is the same planner at the
    fixed batch size 25. *)
Lemma gui_plan_batches_eq id_kind ids :
  Email.plan_batches id_kind ids 25 = Ok (Gui.plan_batches id_kind ids).
Proof.
  unfold Email.plan_batches, Gui.plan_batches, Email.py_range0.
  destruct (Email.id_kind_truthy id_kind && bool_decide (ids ≠ [])); [|done].
  rewrite decide_False, decide_False by lia.
  change (Z.to_nat 25) with 25. cbn [mbind result_bind].
  by replace (length ids + 25 - 1) with (length ids + 24) by lia.
Qed.

Example plan_batches_of_five :
  Email.plan_batches (Some "submissionIds") ["1"; "2"; "3"; "4"; "5"] 2
  = Ok [[Some "1"; Some "2"]; [Some "3"; Some "4"]; [Some "5"]]
  ∧ Email.plan_batches (Some "submissionIds") [] 2 = Ok [[None]].
Proof. split; reflexivity. Qed.

(** Claim C9, as stated, fails: for an endpoint whose configuration has no
    id kind, a non-empty token sequence is not partitioned; both planners
    return the null-batch sentinel and the tokens are dropped. *)
Lemma plan_batches_counterexample :
  Email.plan_batches None ["12345"] 25 = Ok [[None]]
  ∧ Gui.plan_batches None ["12345"] = [[None]]
  ∧ ¬ ∃ bs, Email.plan_batches None ["12345"] 25 = Ok bs
        ∧ concat bs = Some <$> ["12345"].
Proof.
  split; [reflexivity|]. split; [reflexivity|].
  intros (bs & [= <-] & Hconcat). discriminate Hconcat.
Qed.

(** Claim C9, amended: for an endpoint that declares an id kind, a non-empty
    token sequence and a batch size [n ≥ 1] (the constant 25 in
    scholarone_gui_app.py), the planner returns batches whose concatenation is
    the token sequence, each of length between 1 and [n], and each but
    possibly the last of length exactly [n]; for an empty token sequence it
    returns the single null-batch sentinel [[None]]. *)
Theorem plan_batches_partition (id_kind : option string) (ids : list string)
    (n : Z) :
  Email.id_kind_truthy id_kind = true →
  (ids ≠ [] → (1 ≤ n)%Z →
   ∃ bs, Email.plan_batches id_kind ids n = Ok bs
     ∧ concat bs = Some <$> ids
     ∧ Forall (λ b, 1 ≤ length b ≤ Z.to_nat n) bs
     ∧ (∀ j b, bs !! j = Some b → S j < length bs → length b = Z.to_nat n))
  ∧ (ids ≠ [] →
     concat (Gui.plan_batches id_kind ids) = Some <$> ids
     ∧ Forall (λ b, 1 ≤ length b ≤ 25) (Gui.plan_batches id_kind ids)
     ∧ (∀ j b, Gui.plan_batches id_kind ids !! j = Some b →
               S j < length (Gui.plan_batches id_kind ids) → length b = 25))
  ∧ Email.plan_batches id_kind [] n = Ok [[None]]
  ∧ Gui.plan_batches id_kind [] = [[None]].
Proof.
  intros Hkind. split; [by apply email_plan_batches_partition|].
  split.
  - intros Hids.
    destruct (email_plan_batches_partition id_kind ids 25 Hkind Hids)
      as (bs & Hbs & Hconcat & Hlen & Hfull); [lia|].
    rewrite gui_plan_batches_eq in Hbs. injection Hbs as <-. done.
  - unfold Email.plan_batches, Gui.plan_batches.
    by rewrite Hkind.
Qed.

Lemma plan_batches_partition_witness :
  Email.id_kind_truthy (Some "submissionIds") = true
  ∧ ∃ bs, Email.plan_batches (Some "submissionIds") ["1"; "2"; "3"; "4"; "5"] 2
          = Ok bs
      ∧ concat bs = Some <$> ["1"; "2"; "3"; "4"; "5"]
      ∧ Forall (λ b, 1 ≤ length b ≤ Z.to_nat 2) bs
      ∧ (∀ j b, bs !! j = Some b → S j < length bs → length b = Z.to_nat 2).
Proof.
  split; [reflexivity|].
  refine (proj1 (plan_batches_partition (Some "submissionIds")
                   ["1"; "2"; "3"; "4"; "5"] 2 eq_refl) _ _).
  - discriminate.
  - lia.
Defined.

(** ** Identifier normalisation *)

Section splitting.
Implicit Types (s p : string) (c : Ascii.ascii).

Lemma is_space_sep c : is_space c = true → is_sep c = true.
Proof. unfold is_sep. by intros ->. Qed.

Lemma re_split_nonempty s : re_split_seps s ≠ [].
Proof.
  induction s as [|c s IH]; simpl; [done|].
  destruct (is_sep c); [destruct (starts_with_sep s); done|].
  by destruct (re_split_seps s).
Qed.

Lemma re_split_cons_nonsep c s :
  is_sep c = false →
  re_split_seps (String c s)
  = String c (hd "" (re_split_seps s)) :: tail (re_split_seps s).
Proof.
  intros Hc. simpl. rewrite Hc.
  pose proof (re_split_nonempty s). by destruct (re_split_seps s).
Qed.

Lemma re_split_cons_sep c s :
  is_sep c = true →
  re_split_seps (String c s)
  = if starts_with_sep s then re_split_seps s else "" :: re_split_seps s.
Proof. intros Hc. simpl. by rewrite Hc. Qed.

Lemma re_split_hd_sep s :
  starts_with_sep s = true → hd "" (re_split_seps s) = "".
Proof.
  induction s as [|c s IH]; [done|]. simpl. intros ->.
  destruct (starts_with_sep s); [by apply IH|done].
Qed.

Lemma re_split_no_sep s : Forall (λ p, no_sep p = true) (re_split_seps s).
Proof.
  induction s as [|c s IH]; simpl; [by repeat constructor|].
  destruct (is_sep c) eqn:Hc.
  - destruct (starts_with_sep s); [done|by constructor].
  - destruct (re_split_seps s) as [|p ps]; [repeat constructor; simpl; by rewrite Hc|].
    inversion_clear IH as [|?? Hp Hps]. constructor; [|done].
    simpl. by rewrite Hc, Hp.
Qed.

Lemma pieces_of_sep c s : is_sep c = true → pieces_of (String c s) = pieces_of s.
Proof.
  intros Hc. unfold pieces_of. simpl. rewrite Hc.
  destruct (starts_with_sep s); [done|]. by rewrite filter_cons_False by (simpl; tauto).
Qed.

Lemma pieces_of_hd_tail s :
  pieces_of s
  = filter (λ p, Is_true (str_truthy p)) [hd "" (re_split_seps s)]
    ++ filter (λ p, Is_true (str_truthy p)) (tail (re_split_seps s)).
Proof.
  unfold pieces_of. pose proof (re_split_nonempty s).
  destruct (re_split_seps s) as [|p ps]; [done|]. simpl.
  by rewrite (filter_app _ [p] ps).
Qed.
End splitting.

Section stripping.
Implicit Types (s p : string) (c : Ascii.ascii).

Lemma pieces_of_lstrip s : pieces_of (lstrip s) = pieces_of s.
Proof.
  induction s as [|c s IH]; [done|]. simpl.
  destruct (is_space c) eqn:Hc; [|done].
  by rewrite IH, pieces_of_sep by by apply is_space_sep.
Qed.

(** A non-empty [rstrip] starts like the text it strips. *)
Lemma rstrip_starts s :
  rstrip s ≠ "" → starts_with_sep (rstrip s) = starts_with_sep s.
Proof.
  destruct s as [|c s]; [done|]. simpl.
  destruct (rstrip s); [by destruct (is_space c)|done].
Qed.

Lemma rstrip_split s :
  hd "" (re_split_seps (rstrip s)) = hd "" (re_split_seps s)
  ∧ filter (λ p, Is_true (str_truthy p)) (tail (re_split_seps (rstrip s)))
    = filter (λ p, Is_true (str_truthy p)) (tail (re_split_seps s)).
Proof.
  induction s as [|c s [IHhd IHtl]]; [done|].
  assert (pieces_of (rstrip s) = pieces_of s) as IHp.
  { by rewrite !pieces_of_hd_tail, IHhd, IHtl. }
  pose proof (rstrip_starts s) as Hstarts.
  cbn [rstrip]. destruct (rstrip s) as [|c0 r] eqn:Hr.
  - (* everything after [c] is whitespace *)
    cbn in IHhd, IHtl.
    destruct (is_sep c) eqn:Hc.
    + assert (hd "" (re_split_seps (String c s)) = "") as Hhd
        by by apply re_split_hd_sep.
      assert (filter (λ p, Is_true (str_truthy p))
                (tail (re_split_seps (String c s))) = []) as Htl.
      { pose proof (pieces_of_hd_tail (String c s)) as Hp.
        rewrite (pieces_of_sep c s Hc), <-IHp, Hhd in Hp.
        symmetry. exact Hp. }
      rewrite Hhd, Htl.
      destruct (is_space c); [done|]. cbn. by rewrite Hc.
    + assert (is_space c = false) as ->.
      { destruct (is_space c) eqn:Hs; [|done].
        by rewrite (is_space_sep c Hs) in Hc. }
      rewrite (re_split_cons_nonsep c s) by done. cbn.
      by rewrite Hc, <-IHhd, <-IHtl.
  - specialize (Hstarts ltac:(done)).
    destruct (is_sep c) eqn:Hc.
    + rewrite (re_split_cons_sep c s), (re_split_cons_sep c (String c0 r))
        by done.
      rewrite Hstarts.
      destruct (starts_with_sep s); [by split|]. cbn [hd tail].
      split; [done|]. exact IHp.
    + rewrite (re_split_cons_nonsep c s), (re_split_cons_nonsep c (String c0 r))
        by done.
      cbn [hd tail]. by rewrite IHhd, IHtl.
Qed.

Lemma pieces_of_strip s : pieces_of (py_strip s) = pieces_of s.
Proof.
  unfold py_strip. rewrite <-(pieces_of_lstrip s).
  destruct (rstrip_split (lstrip s)) as [Hhd Htl].
  by rewrite !pieces_of_hd_tail, Hhd, Htl.
Qed.

Lemma no_sep_lstrip p : no_sep p = true → lstrip p = p.
Proof.
  destruct p as [|c p]; [done|]. simpl. intros [Hc _]%andb_prop.
  destruct (is_space c) eqn:Hs; [|done].
  by rewrite (is_space_sep c Hs) in Hc.
Qed.

Lemma no_sep_rstrip p : no_sep p = true → rstrip p = p.
Proof.
  induction p as [|c p IH]; [done|]. simpl. intros [Hc Hp]%andb_prop.
  rewrite (IH Hp). destruct p; [|done].
  destruct (is_space c) eqn:Hs; [|done].
  by rewrite (is_space_sep c Hs) in Hc.
Qed.

Lemma no_sep_strip p : no_sep p = true → py_strip p = p.
Proof.
  intros Hp. unfold py_strip. by rewrite (no_sep_lstrip p Hp), no_sep_rstrip.
Qed.

(** What [normalize_ids] returns: the non-empty pieces of the text itself;
    the three [strip] calls change nothing. *)
Lemma normalize_ids_pieces s : normalize_ids s = pieces_of s.
Proof.
  unfold normalize_ids. rewrite <-(pieces_of_strip s). unfold pieces_of.
  pose proof (re_split_no_sep (py_strip s)) as Hall.
  induction Hall as [|p ps Hp _ IH]; [done|].
  rewrite !filter_cons, (no_sep_strip p Hp).
  destruct (decide (Is_true (str_truthy p))); [|done].
  by rewrite fmap_cons, (no_sep_strip p Hp), IH.
Qed.
End stripping.

Section joining.
Implicit Types (s t u sep : string) (c : Ascii.ascii) (l toks : list string).

Lemma str_app_cons c s t : String c s +:+ t = String c (s +:+ t).
Proof. reflexivity. Qed.

Lemma str_app_nil_l s : "" +:+ s = s.
Proof. reflexivity. Qed.

Lemma str_app_nil_r s : s +:+ "" = s.
Proof. induction s as [|c s IH]; [done|]. by rewrite str_app_cons, IH. Qed.

Lemma concat_empty_cons t l :
  String.concat "" (t :: l) = t +:+ String.concat "" l.
Proof. destruct l; [symmetry; apply str_app_nil_r|done]. Qed.

Lemma concat_empty_filter l :
  String.concat "" (filter (λ p, Is_true (str_truthy p)) l)
  = String.concat "" l.
Proof.
  induction l as [|t l IH]; [done|].
  rewrite filter_cons. destruct (decide (Is_true (str_truthy t))) as [|Ht].
  - by rewrite !concat_empty_cons, IH.
  - rewrite concat_empty_cons, IH. by destruct t.
Qed.

Lemma concat_empty_split s : String.concat "" (re_split_seps s) = drop_seps s.
Proof.
  induction s as [|c s IH]; [done|]. cbn [drop_seps].
  destruct (is_sep c) eqn:Hc.
  - rewrite re_split_cons_sep by done.
    destruct (starts_with_sep s); [done|]. by rewrite concat_empty_cons.
  - rewrite re_split_cons_nonsep, concat_empty_cons by done.
    rewrite <-IH. pose proof (re_split_nonempty s).
    destruct (re_split_seps s) as [|p ps]; [done|].
    by rewrite (concat_empty_cons p ps).
Qed.

Lemma re_split_app_no_sep t u :
  no_sep t = true →
  re_split_seps (t +:+ u)
  = (t +:+ hd "" (re_split_seps u)) :: tail (re_split_seps u).
Proof.
  induction t as [|c t IH]; cbn [no_sep].
  - intros _. rewrite !str_app_nil_l.
    pose proof (re_split_nonempty u). by destruct (re_split_seps u).
  - intros [Hc Ht]%andb_prop. apply negb_true_iff in Hc.
    rewrite !str_app_cons, re_split_cons_nonsep, (IH Ht) by done. done.
Qed.

Lemma pieces_of_only_seps sep s :
  only_seps sep = true → pieces_of (sep +:+ s) = pieces_of s.
Proof.
  induction sep as [|c sep IH]; [done|]. cbn [only_seps].
  intros [Hc Hsep]%andb_prop.
  by rewrite str_app_cons, pieces_of_sep, IH.
Qed.

Lemma pieces_of_clean t : clean_token t = true → pieces_of t = [t].
Proof.
  intros [Ht Hns]%andb_prop. rewrite <-(str_app_nil_r t) at 1.
  unfold pieces_of. rewrite (re_split_app_no_sep t "" Hns). cbn [hd tail re_split_seps].
  rewrite str_app_nil_r, filter_cons_True by by apply Is_true_true. done.
Qed.

Lemma pieces_of_clean_sep t sep s :
  clean_token t = true → str_truthy sep = true → only_seps sep = true →
  pieces_of (t +:+ sep +:+ s) = t :: pieces_of s.
Proof.
  intros [Ht Hns]%andb_prop Hsep Hseps.
  assert (starts_with_sep (sep +:+ s) = true) as Hstart.
  { destruct sep as [|c sep]; [done|]. simpl in *. by apply andb_prop in Hseps as [-> _]. }
  pose proof (pieces_of_hd_tail (sep +:+ s)) as Hp.
  rewrite (re_split_hd_sep _ Hstart), (pieces_of_only_seps sep s Hseps) in Hp.
  rewrite filter_cons_False, filter_nil in Hp by (simpl; tauto).
  unfold pieces_of at 1.
  rewrite (re_split_app_no_sep t _ Hns), (re_split_hd_sep _ Hstart), str_app_nil_r.
  rewrite filter_cons_True by by apply Is_true_true.
  by rewrite Hp.
Qed.

Lemma pieces_of_join sep toks :
  str_truthy sep = true → only_seps sep = true →
  Forall (λ t, clean_token t = true) toks →
  pieces_of (String.concat sep toks) = toks.
Proof.
  intros Hsep Hseps Htoks. induction Htoks as [|t toks Ht Htoks IH]; [done|].
  destruct toks as [|t2 toks]; [by apply pieces_of_clean|].
  change (String.concat sep (t :: t2 :: toks))
    with (t +:+ sep +:+ String.concat sep (t2 :: toks)).
  by rewrite pieces_of_clean_sep, IH.
Qed.

Lemma pieces_of_clean_tokens s :
  Forall (λ t, clean_token t = true) (pieces_of s).
Proof.
  unfold pieces_of. apply Forall_forall. intros t [Ht Hin]%list_elem_of_filter.
  pose proof (re_split_no_sep s) as Hall.
  rewrite Forall_forall in Hall. unfold clean_token.
  by rewrite (Hall t Hin), (Is_true_eq_true _ Ht).
Qed.
End joining.

(** Every token that [normalize_ids] returns is non-empty and contains no
    whitespace, comma, semicolon or bar. *)
Theorem normalize_ids_tokens_clean (id_text : string) :
  Forall (λ t, clean_token t = true) (normalize_ids id_text).
Proof. rewrite normalize_ids_pieces. apply pieces_of_clean_tokens. Qed.

(** [normalize_ids] loses nothing but separators and keeps the order: its
    tokens put end to end are the text with the separator characters
    removed. *)
Theorem normalize_ids_keeps_characters (id_text : string) :
  String.concat "" (normalize_ids id_text) = drop_seps id_text.
Proof.
  rewrite normalize_ids_pieces. unfold pieces_of.
  by rewrite concat_empty_filter, concat_empty_split.
Qed.

(** Tokens joined by any non-empty run of separator characters are read back
    as they were: [normalize_ids(sep.join(tokens)) == tokens]. *)
Theorem normalize_ids_join (sep : string) (tokens : list string) :
  str_truthy sep = true → only_seps sep = true →
  Forall (λ t, clean_token t = true) tokens →
  normalize_ids (String.concat sep tokens) = tokens.
Proof. intros. rewrite normalize_ids_pieces. by apply pieces_of_join. Qed.

Lemma normalize_ids_join_witness :
  normalize_ids (String.concat "; " ["12345"; "a@b.com"]) = ["12345"; "a@b.com"].
Proof.
  apply (normalize_ids_join "; " ["12345"; "a@b.com"]);
    [reflexivity|reflexivity|by repeat constructor].
Defined.

(** What [_format_ids_vertically] writes back into the entry box,
    ["\n".join(normalize_ids(text))], normalises to the same tokens: the
    reformatting is stable. *)
Theorem normalize_ids_idempotent (id_text : string) :
  normalize_ids (String.concat newline (normalize_ids id_text))
  = normalize_ids id_text.
Proof.
  rewrite !normalize_ids_pieces.
  apply pieces_of_join; [done|done|apply pieces_of_clean_tokens].
Qed.

(** [normalize_ids] returns no token exactly when the text has nothing but
    separator characters (the empty text included). *)
Theorem normalize_ids_empty_iff (id_text : string) :
  normalize_ids id_text = [] ↔ only_seps id_text = true.
Proof.
  rewrite normalize_ids_pieces. split.
  - intros Hnil.
    assert (String.concat "" (pieces_of id_text) = drop_seps id_text) as Hkeep.
    { unfold pieces_of. by rewrite concat_empty_filter, concat_empty_split. }
    rewrite Hnil in Hkeep. cbn in Hkeep.
    induction id_text as [|c s IH]; [done|].
    cbn [drop_seps only_seps] in *. destruct (is_sep c) eqn:Hc; [|done].
    rewrite pieces_of_sep in Hnil by done. by rewrite IH.
  - intros Hseps. rewrite <-(str_app_nil_r id_text).
    by rewrite pieces_of_only_seps.
Qed.

(** ** More on the flatteners *)

Lemma str_app_assoc (a b c : string) : (a +:+ b) +:+ c = a +:+ (b +:+ c).
Proof.
  induction a as [|x a IH]; [done|]. by rewrite !str_app_cons, IH.
Qed.

Lemma map_path_extends pk sep k : ∃ rest, Spec.map_path pk sep k = pk +:+ rest.
Proof. unfold Spec.map_path. case_decide as Hpk; [subst pk|]; by eexists. Qed.

Lemma seq_path_extends pk i : ∃ rest, Spec.seq_path pk i = pk +:+ rest.
Proof. unfold Spec.seq_path. case_decide as Hpk; [subst pk|]; by eexists. Qed.

Lemma leaf_keys_extend o :
  ∀ pk sep, Forall (λ k, ∃ rest, k = pk +:+ rest) (Spec.leaf_keys o pk sep).
Proof.
  induction o as [| | | | |l IH|d IH] using json_nested_ind; intros pk sep;
    try (cbn [Spec.leaf_keys]; apply Forall_singleton;
         exists ""; by rewrite str_app_nil_r).
  - cbn [Spec.leaf_keys]. apply Forall_concat, Forall_map_positions.
    eapply Forall_impl; [exact IH|]. intros v Hv i. cbn beta.
    destruct (seq_path_extends pk i) as [r Hr].
    eapply Forall_impl; [apply Hv|]. intros k [rest ->].
    exists (r +:+ rest). rewrite Hr. apply str_app_assoc.
  - cbn [Spec.leaf_keys]. apply Forall_concat, Forall_fmap.
    eapply Forall_impl; [exact IH|]. intros [k0 v] Hv. cbn [fst snd] in *.
    destruct (map_path_extends pk sep k0) as [r Hr].
    eapply Forall_impl; [apply Hv|]. intros k [rest ->]. cbn [fst snd].
    exists (r +:+ rest). rewrite Hr. apply str_app_assoc.
Qed.

(** Every key of [flatten(obj, parent_key, sep)] starts with [parent_key]:
    a nested value only ever contributes columns below its own path. *)
Theorem flatten_keys_extend_parent (obj : json) (parent_key sep : string) :
  map_Forall (λ k _, ∃ rest, k = parent_key +:+ rest)
    (Core.flatten obj parent_key sep).
Proof.
  intros k x Hk.
  assert (k ∈ dom (Core.flatten obj parent_key sep)) as Hdom
    by (apply elem_of_dom; eauto).
  rewrite flatten_eq_spec, flatten_spec_dom, elem_of_list_to_set in Hdom.
  pose proof (leaf_keys_extend obj parent_key sep) as Hall.
  rewrite Forall_forall in Hall. by apply Hall.
Qed.

Lemma foldl_update_singletons (d : list (string * json))
    (acc : gmap string json) :
  NoDup d.*1 →
  foldl Core.update acc ((λ kv : string * json, {[kv.1 := kv.2]}) <$> d)
  = list_to_map d ∪ acc.
Proof.
  revert acc. induction d as [|[k v] d IH]; intros acc Hnd.
  - cbn. by rewrite (left_id_L ∅ (∪)).
  - rewrite fmap_cons in Hnd. apply NoDup_cons in Hnd as [Hk Hnd].
    rewrite fmap_cons. cbn [foldl fst snd] in *.
    rewrite (IH _ Hnd). unfold Core.update. rewrite list_to_map_cons.
    rewrite <-insert_union_singleton_l, <-insert_union_l.
    symmetry. apply insert_union_r. by apply not_elem_of_list_to_map_1.
Qed.

(** A mapping whose keys are distinct and whose values are all scalars is
    its own flattening. *)
Lemma flatten_flat_mapping (d : list (string * json)) (sep : string) :
  NoDup d.*1 → Forall (λ kv, is_scalar kv.2 = true) d →
  Core.flatten (JDict d) "" sep = list_to_map d.
Proof.
  intros Hnd Hsc. rewrite flatten_dict_fold.
  assert ((λ kv : string * json,
             Core.flatten kv.2 (Core.dict_key "" sep kv.1) sep) <$> d
          = (λ kv : string * json, {[kv.1 := kv.2]}) <$> d) as ->.
  { apply Forall_fmap_ext. eapply Forall_impl; [exact Hsc|].
    intros [k v] Hv. cbn [fst snd] in *. by destruct v. }
  by rewrite foldl_update_singletons, (right_id_L ∅ (∪)).
Qed.

(** Flattening is idempotent: the result of [flatten], read as a mapping
    again and flattened from the root with any separator, is itself. *)
Theorem flatten_idempotent (obj : json) (parent_key sep sep' : string) :
  Core.flatten (JDict (map_to_list (Core.flatten obj parent_key sep))) "" sep'
  = Core.flatten obj parent_key sep.
Proof.
  rewrite flatten_flat_mapping.
  - apply list_to_map_to_list.
  - apply NoDup_fst_map_to_list.
  - apply Forall_forall. intros [k v] Hkv%elem_of_map_to_list.
    rewrite flatten_eq_spec in Hkv.
    exact (flatten_spec_scalars obj parent_key sep k v Hkv).
Qed.

(** ** The source label of a row *)

Lemma new_row_label prefix : new_row prefix !! site_name = Some (JStr prefix).
Proof. unfold new_row. apply lookup_insert_eq. Qed.

Lemma gui_row_label prefix item :
  Gui.row_of prefix item !! site_name = Some (JStr prefix).
Proof.
  unfold Gui.row_of.
  destruct (recurse_grows item (Some []) None (new_row prefix)) as [Hsub _].
  eapply lookup_weaken; [apply new_row_label|exact Hsub].
Qed.

(** In scholarone_gui_app.py the label survives whatever the payload holds:
    every row that [flatten_json] returns maps [site_name] to the source
    label it was called with. *)
Theorem gui_rows_keep_label (obj : json) (prefix : string)
    (rows : list (gmap string json)) :
  Gui.flatten_json obj prefix = Ok rows →
  Forall (λ row : gmap string json, row !! site_name = Some (JStr prefix)) rows.
Proof.
  rewrite gui_flatten_json_cases.
  destruct (Gui.content_of obj) as [[]|]; intros [= <-];
    try (apply Forall_singleton, gui_row_label).
  apply Forall_fmap, Forall_true. intros item. apply gui_row_label.
Qed.

Lemma gui_rows_keep_label_witness :
  ∃ rows, Gui.flatten_json (JDict [("site_name", JStr "x")]) "siteA" = Ok rows
    ∧ Forall (λ row : gmap string json,
                row !! site_name = Some (JStr "siteA")) rows.
Proof.
  eexists. split; [vm_compute; reflexivity|].
  apply (gui_rows_keep_label (JDict [("site_name", JStr "x")]) "siteA").
  vm_compute. reflexivity.
Defined.

(** In the email implementation [flat.update] lets the record win: a row
    keeps its source label exactly when the flattened record has no entry
    under [site_name] other than the label itself. *)
Theorem email_row_label (prefix : string) (item : json) :
  Email.row_of prefix item !! site_name = Some (JStr prefix)
  ↔ ∀ v, Core.flatten item "" "." !! site_name = Some v → v = JStr prefix.
Proof.
  unfold Email.row_of, Core.update. rewrite email_recurse_eq_flatten.
  rewrite lookup_union.
  destruct (Core.flatten item "" "." !! site_name) as [v|] eqn:Hv.
  - rewrite new_row_label. cbn. split.
    + intros [= ->] ? [= <-]. done.
    + intros H. by rewrite (H v eq_refl).
  - rewrite new_row_label. cbn. split; [by intros _ ?|done].
Qed.

(** The flattener inside [flatten_json] of the email implementation is
    [flatten] of src/core/flatten.py at the separator ["."]: the two copies
    of the algorithm agree on every value and parent key. *)
Theorem email_recurse_is_flatten (o : json) (parent_key : string) :
  Email._recurse o parent_key = Core.flatten o parent_key ".".
Proof. apply email_recurse_eq_flatten. Qed.

(** ** The two envelope lookups compared *)

(** Line 66 of scholarone_gui_app.py starts with the lookup of the email
    implementation and, once that has returned, cannot raise any more. *)
Lemma gui_content_of_cases (obj : json) :
  match Email.submissions_of obj with
  | Raise e => Gui.content_of obj = Raise e
  | Ok a =>
      ∃ b c, Gui.content_of obj
             = Ok (if truthy a then a else if truthy b then b else c)
             ∧ (∀ x xs, a = JList (x :: xs) → truthy a = true)
  end.
Proof.
  unfold Email.submissions_of, Gui.content_of, Gui.py_or, py_get.
  destruct obj as [| | | | | |d]; try reflexivity. cbn.
  destruct (default (JDict []) (assoc "Response" d))
    as [| | | | | |d1]; try reflexivity. cbn.
  destruct (default (JDict []) (assoc "result" d1))
    as [| | | | | |d2] eqn:Hres; try reflexivity. cbn.
  exists (JDict d2), (default (JDict []) (assoc "result" d)).
  split; [|by intros x xs ->].
  destruct (truthy (default JNull (assoc "submission" d2))); [done|].
  by destruct d2.
Qed.

(** [flatten_json] of scholarone_gui_app.py raises on exactly the payloads on
    which the lookup [obj.get("Response", {}).get("result", {}).get("submission")]
    raises, that is where the email implementation takes its [except] branch;
    on every other payload it returns rows. *)
Theorem gui_raises_iff_lookup_raises (obj : json) (prefix : string) :
  (∀ e, Gui.flatten_json obj prefix = Raise e
        ↔ Email.submissions_of obj = Raise e)
  ∧ ((∃ a, Email.submissions_of obj = Ok a)
     ↔ ∃ rows, Gui.flatten_json obj prefix = Ok rows).
Proof.
  pose proof (gui_content_of_cases obj) as Hcases.
  rewrite gui_flatten_json_cases.
  destruct (Email.submissions_of obj) as [a|e0].
  - destruct Hcases as (b & c & -> & _). split.
    + intros e. by destruct (if truthy a then a else if truthy b then b else c).
    + split; intros _; [|by eexists].
      destruct (if truthy a then a else if truthy b then b else c); by eexists.
  - rewrite Hcases. cbn. split.
    + intros e. split; by intros [= ->].
    + split; [by intros [? ?]|by intros [? ?]].
Qed.

(** Where the email implementation finds a non-empty record list, so does
    scholarone_gui_app.py: both return one row per record of that list. *)
Theorem envelope_list_agreement (obj : json) (prefix : string)
    (items : list json) :
  Email.submissions_of obj = Ok (JList items) → items ≠ [] →
  Email.flatten_json obj prefix = Email.row_of prefix <$> items
  ∧ Gui.flatten_json obj prefix = Ok (Gui.row_of prefix <$> items).
Proof.
  intros Hsub Hne. pose proof (gui_content_of_cases obj) as Hcases.
  rewrite email_flatten_json_cases, gui_flatten_json_cases, Hsub in *.
  destruct Hcases as (b & c & -> & _).
  destruct items as [|x xs]; [done|]. done.
Qed.

Lemma envelope_list_agreement_witness :
  Email.flatten_json envelope_example "siteA"
  = Email.row_of "siteA" <$> [JDict [("id", JInt 1)]; JDict [("id", JInt 2)]]
  ∧ Gui.flatten_json envelope_example "siteA"
    = Ok (Gui.row_of "siteA" <$> [JDict [("id", JInt 1)]; JDict [("id", JInt 2)]]).
Proof.
  apply (envelope_list_agreement envelope_example "siteA");
    [reflexivity|discriminate].
Defined.

(** ** A sequence of scalars *)

Section scalar_sequence.
Variables (parent_key sep : string).

#[local] Instance list_key_inj : Inj (=) (=) (Core.list_key parent_key).
Proof.
  intros a b Hab. unfold Core.list_key, str_of_nat in Hab.
  destruct (str_truthy parent_key).
  - by apply (inj (String.append parent_key)), (inj (String.append "_")),
      (inj pretty) in Hab.
  - by apply (inj pretty) in Hab.
Qed.

Let pieces (j : nat) (l : list json) : list (gmap string json) :=
  Spec.map_positions (λ i v, Core.flatten v (Core.list_key parent_key i) sep) j l.

Lemma scalar_sequence_lookup l :
  Forall (λ v, is_scalar v = true) l →
  ∀ j acc n,
    foldl Core.update acc (pieces j l) !! Core.list_key parent_key n
    = if decide (j ≤ n < j + length l) then l !! (n - j)
      else acc !! Core.list_key parent_key n.
Proof.
  induction 1 as [|v l Hv _ IH]; intros j acc n.
  - cbn. case_decide; [lia|done].
  - cbn [pieces Spec.map_positions foldl]. fold (pieces (S j) l). rewrite IH.
    assert (Core.flatten v (Core.list_key parent_key j) sep
            = {[Core.list_key parent_key j := v]}) as -> by by destruct v.
    unfold Core.update. cbn [length].
    destruct (decide (n = j)) as [->|Hne].
    + rewrite decide_False, decide_True by lia.
      rewrite Nat.sub_diag. cbn.
      by rewrite <-insert_union_singleton_l, lookup_insert_eq.
    + rewrite <-insert_union_singleton_l, lookup_insert_ne
        by (intros Heq; by apply (inj _) in Heq).
      repeat case_decide; try lia; [|done].
      replace (n - j) with (S (n - S j)) by lia. done.
Qed.

Lemma scalar_sequence_size l :
  Forall (λ v, is_scalar v = true) l →
  ∀ j acc,
    (∀ n, j ≤ n → acc !! Core.list_key parent_key n = None) →
    size (foldl Core.update acc (pieces j l)) = size acc + length l.
Proof.
  induction 1 as [|v l Hv _ IH]; intros j acc Hfresh.
  - cbn. lia.
  - cbn [pieces Spec.map_positions foldl]. fold (pieces (S j) l).
    assert (Core.flatten v (Core.list_key parent_key j) sep
            = {[Core.list_key parent_key j := v]}) as -> by by destruct v.
    unfold Core.update. rewrite <-insert_union_singleton_l.
    rewrite IH.
    + rewrite map_size_insert_None by (apply Hfresh; lia). cbn. lia.
    + intros n Hn. rewrite lookup_insert_ne
        by (intros Heq; apply (inj _) in Heq; lia).
      apply Hfresh. lia.
Qed.
End scalar_sequence.

(** A sequence of [n] scalars flattens to exactly [n] entries: its element
    at the 1-based position [i] is found under [parent_key_i] ([i] alone at
    the root), and no position beyond [n] has an entry. *)
Theorem flatten_scalar_sequence (l : list json) (parent_key sep : string) :
  Forall (λ v, is_scalar v = true) l →
  (∀ i, Core.flatten (JList l) parent_key sep !! Core.list_key parent_key (S i)
        = l !! i)
  ∧ size (Core.flatten (JList l) parent_key sep) = length l.
Proof.
  intros Hl. rewrite flatten_list_fold. split.
  - intros i. rewrite (scalar_sequence_lookup parent_key sep l Hl 1 ∅ (S i)).
    case_decide as Hi.
    + f_equal. lia.
    + rewrite lookup_empty. symmetry. apply lookup_ge_None. lia.
  - rewrite (scalar_sequence_size parent_key sep l Hl 1 ∅); [by rewrite map_size_empty|].
    intros n _. apply lookup_empty.
Qed.

Lemma flatten_scalar_sequence_witness :
  Core.flatten (JList [JStr "a"; JInt 7]) "tags" "." !! "tags_2" = Some (JInt 7).
Proof.
  apply (proj1 (flatten_scalar_sequence [JStr "a"; JInt 7] "tags" "."
                  ltac:(by repeat constructor)) 1).
Defined.

(** ** From the text entered to the queries sent *)

Lemma batches_chunks (bs : list (list (option string))) :
  ∀ ids : list string,
    concat bs = Some <$> ids →
    ∃ cs, bs = (λ c : list string, Some <$> c) <$> cs ∧ concat cs = ids.
Proof.
  induction bs as [|b bs IH]; intros ids Hconcat.
  - cbn in Hconcat. symmetry in Hconcat. apply fmap_nil_inv in Hconcat.
    by exists [].
  - cbn in Hconcat. symmetry in Hconcat.
    apply fmap_app_inv in Hconcat as (l1 & l2 & -> & Hbs & ->).
    destruct (IH l2 Hbs) as (cs & -> & <-). by exists (l1 :: cs).
Qed.

Lemma join_batch_Some sep (c : list string) :
  join_batch sep (Some <$> c) = Some (String.concat sep c).
Proof. unfold join_batch. by rewrite mapM_fmap_Some. Qed.

Lemma batch_not_sentinel (c : list string) : c ≠ [] → Some <$> c ≠ [None].
Proof. by destruct c. Qed.

Lemma gui_query_of_chunk site dates id_kind (c : list string) :
  Email.id_kind_truthy id_kind = true → c ≠ [] →
  ∃ q, GuiTool.build_query site dates id_kind (Some <$> c) = Some q
    ∧ q !! "ids" = Some (JStr (String.concat "," c))
    ∧ q !! "_type" = Some (JStr "json")
    ∧ q !! "site_name" = Some (JStr site).
Proof.
  intros Hkind Hc. unfold GuiTool.build_query.
  rewrite Hkind, bool_decide_eq_true_2 by by apply batch_not_sentinel.
  rewrite join_batch_Some. cbn. eexists. split; [done|].
  destruct dates as [[start_date end_date]|]; by simplify_map_eq.
Qed.

Lemma tokens_sent_csv (q : gmap string json) (c : list string) :
  q !! "ids" = Some (JStr (String.concat "," c)) →
  Forall (λ t, clean_token t = true) c →
  tokens_sent "ids" q = c.
Proof.
  intros Hq Hc. unfold tokens_sent. rewrite Hq, normalize_ids_pieces.
  by apply pieces_of_join.
Qed.

Lemma gui_queries_of_chunks site dates id_kind (cs : list (list string)) :
  Email.id_kind_truthy id_kind = true →
  Forall (λ c, c ≠ [] ∧ Forall (λ t, clean_token t = true) c) cs →
  ∃ qs, mapM (GuiTool.build_query site dates id_kind)
          ((λ c : list string, Some <$> c) <$> cs) = Some qs
    ∧ concat (tokens_sent "ids" <$> qs) = concat cs
    ∧ Forall (λ q : gmap string json,
                q !! "_type" = Some (JStr "json")
                ∧ q !! "site_name" = Some (JStr site)) qs.
Proof.
  intros Hkind Hcs. induction Hcs as [|c cs [Hne Hclean] _ (qs & Hqs & Hsent & Hall)].
  - by exists [].
  - destruct (gui_query_of_chunk site dates id_kind c Hkind Hne)
      as (q & Hq & Hids & Htype & Hsite).
    exists (q :: qs). rewrite fmap_cons. cbn [mapM]. rewrite Hq, Hqs. cbn.
    split; [done|]. split.
    + by rewrite (tokens_sent_csv q c Hids Hclean), Hsent.
    + by constructor.
Qed.

Lemma Forall_concat_inv {A} (P : A → Prop) (cs : list (list A)) :
  Forall P (concat cs) → Forall (Forall P) cs.
Proof.
  induction cs as [|c cs IH]; [done|]. cbn.
  rewrite Forall_app. intros [Hc Hcs]. constructor; auto.
Qed.

Lemma clean_chunks (bs : list (list (option string))) (ids : list string) :
  concat bs = Some <$> ids →
  Forall (λ b, 1 ≤ length b) bs →
  Forall (λ t, clean_token t = true) ids →
  ∃ cs, bs = (λ c : list string, Some <$> c) <$> cs ∧ concat cs = ids
    ∧ Forall (λ c, c ≠ [] ∧ Forall (λ t, clean_token t = true) c) cs.
Proof.
  intros Hconcat Hlen Hclean.
  destruct (batches_chunks bs ids Hconcat) as (cs & -> & <-).
  exists cs. split; [done|]. split; [done|].
  apply Forall_concat_inv in Hclean. rewrite Forall_fmap in Hlen.
  rewrite Forall_forall in *. intros c Hc. split; [|by apply Hclean].
  specialize (Hlen c Hc). cbn in Hlen. rewrite length_fmap in Hlen.
  destruct c; [cbn in Hlen; lia|done].
Qed.

(** [submit_request] of scholarone_gui_app.py, from the entry box to the
    queries of one site: for an endpoint with an id kind and a text holding
    at least one token, every planned batch yields a query, each query has
    [_type = json] and the site, and the [ids] parameters of the queries,
    split again at their commas, are the tokens entered: each once, in
    order. *)
Theorem gui_ids_reach_queries (site : string) (dates : option (string * string))
    (id_kind : option string) (id_text : string) :
  Email.id_kind_truthy id_kind = true → normalize_ids id_text ≠ [] →
  ∃ qs, mapM (GuiTool.build_query site dates id_kind)
          (Gui.plan_batches id_kind (normalize_ids id_text)) = Some qs
    ∧ concat (tokens_sent "ids" <$> qs) = normalize_ids id_text
    ∧ Forall (λ q : gmap string json,
                q !! "_type" = Some (JStr "json")
                ∧ q !! "site_name" = Some (JStr site)) qs.
Proof.
  intros Hkind Hids.
  destruct (email_plan_batches_partition id_kind (normalize_ids id_text) 25
              Hkind Hids ltac:(lia)) as (bs & Hbs & Hconcat & Hlen & _).
  rewrite gui_plan_batches_eq in Hbs. injection Hbs as <-.
  destruct (clean_chunks _ _ Hconcat) as (cs & Hcs & Hcc & Hall).
  - eapply Forall_impl; [exact Hlen|]. intros b Hb. cbn in Hb. lia.
  - rewrite normalize_ids_pieces. apply pieces_of_clean_tokens.
  - rewrite Hcs, <-Hcc. by apply gui_queries_of_chunks.
Qed.

Lemma gui_ids_reach_queries_witness :
  ∃ qs, mapM (GuiTool.build_query "ms" None (Some "submissionIds"))
          (Gui.plan_batches (Some "submissionIds") (normalize_ids "12; 34")) = Some qs
    ∧ concat (tokens_sent "ids" <$> qs) = normalize_ids "12; 34"
    ∧ Forall (λ q : gmap string json,
                q !! "_type" = Some (JStr "json")
                ∧ q !! "site_name" = Some (JStr "ms")) qs.
Proof.
  apply (gui_ids_reach_queries "ms" None (Some "submissionIds") "12; 34");
    [reflexivity|by vm_compute].
Defined.

Lemma singleton_batches (bs : list (list (option string))) :
  ∀ ids : list string,
    concat bs = Some <$> ids → Forall (λ b, length b = 1) bs →
    bs = (λ t, [Some t]) <$> ids.
Proof.
  induction bs as [|b bs IH]; intros ids Hconcat Hlen.
  - cbn in Hconcat. symmetry in Hconcat. by apply fmap_nil_inv in Hconcat as ->.
  - apply Forall_cons in Hlen as [Hb Hlen].
    destruct b as [|x [|? ?]]; try done. cbn in Hconcat.
    destruct ids as [|t ids]; [done|]. rewrite fmap_cons in Hconcat.
    injection Hconcat as -> Hconcat. rewrite fmap_cons.
    by rewrite (IH ids Hconcat Hlen).
Qed.

Lemma email_queries_of_addresses site params_date (ids : list string) :
  ∃ qs, mapM (EmailTool.build_query site params_date (Some "emails")
                (Some "primary_email"))
          ((λ t, [Some t]) <$> ids) = Some qs
    ∧ (λ q : gmap string json, q !! "primary_email") <$> qs
      = (λ t, Some (JStr t)) <$> ids.
Proof.
  induction ids as [|t ids (qs & Hqs & Hsent)]; [by exists []|].
  rewrite fmap_cons. cbn [mapM]. rewrite Hqs.
  unfold EmailTool.build_query at 1. cbn.
  eexists. split; [reflexivity|]. rewrite fmap_cons, Hsent.
  by rewrite lookup_insert_eq.
Qed.

(** [run_query] of the email implementation on the email search endpoint, as
    [ENDPOINTS] configures it: each address entered gets a request of its
    own, in the order entered, with that address as [primary_email]. *)
Theorem email_addresses_reach_queries (conf : endpoint_conf) (site : string)
    (params_date : gmap string json) (id_text : string) :
  ("getPersonInfoFullEmail", conf) ∈ EmailTool.ENDPOINTS →
  normalize_ids id_text ≠ [] →
  ∃ bs qs,
    EmailTool.batches_for conf (normalize_ids id_text) = Ok bs
    ∧ mapM (EmailTool.build_query site params_date (conf_id_kind conf)
              (conf_id_param conf)) bs = Some qs
    ∧ (λ q : gmap string json, q !! "primary_email") <$> qs
      = (λ t, Some (JStr t)) <$> normalize_ids id_text.
Proof.
  intros Hconf Hids.
  assert (conf_id_kind conf = Some "emails"
          ∧ conf_id_param conf = Some "primary_email"
          ∧ conf_batch_size conf = Some 1%Z) as (Hkind & Hparam & Hsize).
  { assert (Forall (λ kc : string * endpoint_conf,
                      kc.1 = "getPersonInfoFullEmail" →
                      conf_id_kind kc.2 = Some "emails"
                      ∧ conf_id_param kc.2 = Some "primary_email"
                      ∧ conf_batch_size kc.2 = Some 1%Z)
              EmailTool.ENDPOINTS) as Htable
      by (repeat constructor; cbn; try discriminate; by intros _).
    rewrite Forall_forall in Htable. by apply (Htable _ Hconf). }
  unfold EmailTool.batches_for, EmailTool.batch_size_of.
  rewrite Hkind, Hparam, Hsize. cbn [default].
  destruct (email_plan_batches_partition (Some "emails")
              (normalize_ids id_text) 1 eq_refl Hids ltac:(lia))
    as (bs & Hbs & Hconcat & Hlen & _).
  assert (bs = (λ t, [Some t]) <$> normalize_ids id_text) as Hsingle.
  { apply singleton_batches; [done|].
    eapply Forall_impl; [exact Hlen|]. intros b Hb. cbn in Hb. lia. }
  destruct (email_queries_of_addresses site params_date (normalize_ids id_text))
    as (qs & Hqs & Hsent).
  exists bs, qs. by rewrite Hsingle at 2.
Qed.
